(** * The reference / type-literal converter of the documentation engine

    A shallow embedding of [src/lib/converter/converters/types/reference.ts]
    (class [ReferenceConverter]) together with the parts of the conversion
    context it drives.  The TypeScript front end (symbols, syntax nodes,
    resolved types) is immutable input and is kept in a [ts.Program]; object
    identity of front-end objects is a natural number.  The conversion context
    is mutable in the source and is threaded explicitly here. *)

From Stdlib Require Import List ZArith Bool String Lia Arith PeanoNat.
From Stdlib Require Import DecimalString.
Import ListNotations.
Open Scope Z_scope.

Set Warnings "-register-all".

(* ================================================================== *)
(** ** JavaScript number operations used by the converter *)

Module js.

(** [ToInt32]: the value a JavaScript bitwise operator sees. *)
Definition toInt32 (x : Z) : Z := (x + 2 ^ 31) mod 2 ^ 32 - 2 ^ 31.

(** [a & b] on numbers holding integers. *)
Definition bitand (a b : Z) : Z := Z.land (toInt32 a) (toInt32 b).

(** Truthiness of a number: everything but zero. *)
Definition truthy (x : Z) : bool := negb (x =? 0).

(** [xs.indexOf(x)] with strict equality on identities: the first position
    of [x], or [-1]. *)
Fixpoint indexOfFrom (xs : list nat) (x : nat) (i : Z) : Z :=
  match xs with
  | [] => -1
  | y :: ys => if Nat.eqb y x then i else indexOfFrom ys x (i + 1)
  end.

Definition indexOf (xs : list nat) (x : nat) : Z := indexOfFrom xs x 0.

End js.

(* ================================================================== *)
(** ** The TypeScript front end, at its boundary *)

Module ts.

(** Identity of a [ts.Node] and of a [ts.Symbol] object. *)
Definition NodeId := nat.
Definition SymbolId := nat.

Module SyntaxKind.
(** The members of the compiler's [SyntaxKind] enumeration that occur as
    declarations of the symbols handled here. *)
Inductive t :=
| TypeLiteral
| ObjectLiteralExpression
| FunctionType
| ConstructorType
| TypeAliasDeclaration
| VariableDeclaration
| PropertySignature
| InterfaceDeclaration
| ClassDeclaration
| TypeReference.

Definition eqb (a b : t) : bool :=
  match a, b with
  | TypeLiteral, TypeLiteral
  | ObjectLiteralExpression, ObjectLiteralExpression
  | FunctionType, FunctionType
  | ConstructorType, ConstructorType
  | TypeAliasDeclaration, TypeAliasDeclaration
  | VariableDeclaration, VariableDeclaration
  | PropertySignature, PropertySignature
  | InterfaceDeclaration, InterfaceDeclaration
  | ClassDeclaration, ClassDeclaration
  | TypeReference, TypeReference => true
  | _, _ => false
  end.
End SyntaxKind.

(** A symbol as far as the converter reads it; [declarations] is iterated
    without a test, so it is always an array here. *)
Module Symbol.
Record t := mk {
  flags : Z;
  declarations : list NodeId
}.
End Symbol.

(** A syntax node as far as the converter reads it: [parent] and [symbol]
    are optional properties of [ts.Node]. *)
Module Node.
Record t := mk {
  kind : SyntaxKind.t;
  parent : option NodeId;
  symbol : option SymbolId
}.
End Node.

(** A resolved type ([ts.TypeReference]). *)
Module TypeReference.
Inductive t := mk {
  flags : Z;
  symbol : option SymbolId;
  typeArguments : option (list t)
}.
End TypeReference.

(** A type-reference syntax node ([ts.TypeReferenceNode]). *)
Module TypeReferenceNode.
Inductive t := mk {
  id : NodeId;
  typeArguments : option (list t)
}.
End TypeReferenceNode.

(** A member of a declaration: its name, its own syntax node and the
    syntax of its type annotation. *)
Module Member.
Record t := mk {
  name : string;
  node : NodeId;
  type : TypeReferenceNode.t
}.
End Member.

(** The flag constants of the compiler ([ts.TypeFlags.ObjectType],
    [ts.SymbolFlags.TypeLiteral], [ts.SymbolFlags.ObjectLiteral]) belong to
    the external [typescript] package; their values are left open. *)
Record Program := mkProgram {
  TypeFlags_ObjectType : Z;
  SymbolFlags_TypeLiteral : Z;
  SymbolFlags_ObjectLiteral : Z;
  symbolOf : SymbolId -> Symbol.t;
  nodeOf : NodeId -> Node.t;
  (** the members written inside a declaration, in source order *)
  membersOf : NodeId -> list Member.t;
  (** the type checker: the resolved type of a type node *)
  getTypeAtLocation : NodeId -> TypeReference.t
}.

End ts.

(* ================================================================== *)
(** ** The documentation model *)

Definition ReflectionId := nat.

(** Some members of the [ReflectionKind] enumeration of [models/Reflection];
    the converter uses [TypeLiteral]. *)
Module ReflectionKind.
Inductive t := Global | Class | Interface | Property | TypeAlias | TypeLiteral.
End ReflectionKind.

(** Modelled from the spec: the target of a Reference Type Node
    ([models/types/ReferenceType], not among the sources).  Section 4.2: a
    reference stores the id of the Declaration Node when its symbol is
    registered, else the symbol with a pending marker; the resolution pass
    turns what stays unknown into an external marker. *)
Inductive Target :=
| Resolved (id : ReflectionId)
| Pending (symbol : option ts.SymbolId)
| External.

(** The [Type] classes the converter builds: [new IntrinsicType(name)],
    [new ReflectionType(declaration)] and the [ReferenceType] that
    [createReferenceType] returns, whose [typeArguments] the converter
    assigns. *)
Inductive Ty :=
| IntrinsicType (name : string)
| ReferenceType (target : Target) (typeArguments : option (list Ty))
| ReflectionType (declaration : ReflectionId).

(** Modelled from the spec: the Declaration Node
    ([models/reflections/DeclarationReflection], not among the sources).
    Section 3: kind, name, owning parent, ordered children and the declared
    type.  [kind], [name] and [parent] are the fields the converter assigns. *)
Module DeclarationReflection.
Record t := mk {
  kind : ReflectionKind.t;
  name : string;
  parent : option ReflectionId;
  children : list ReflectionId;
  type : option Ty
}.
End DeclarationReflection.

(** [Converter.EVENT_CREATE_DECLARATION] with its two arguments. *)
Inductive Event :=
| EVENT_CREATE_DECLARATION (declaration : ReflectionId) (node : option ts.NodeId).

(* ================================================================== *)
(** ** The conversion context *)

(** Modelled from the spec: the [Context] class ([converter/Context], not
    among the sources).  Section 3: current scope, a registry from symbols to
    Declaration Node ids and the visit stack of syntax declarations being
    converted.  The Declaration Nodes built so far ([reflections], a node's id
    is its position) and the notifications fired so far ([events]) are the
    observable outcome of a run.  The registry keeps the newest binding first,
    so a lookup sees what an object map would hold while every registration
    stays countable. *)
Module Context.
Record t := mk {
  scope : option ReflectionId;
  registry : list (ts.SymbolId * ReflectionId);
  visitStack : list ts.NodeId;
  reflections : list DeclarationReflection.t;
  events : list Event
}.
End Context.

Inductive Error := TypeError | OutOfFuel.

Inductive Result (A : Type) :=
| Ok (a : A)
| Err (e : Error).
Arguments Ok {A} a.
Arguments Err {A} e.

(** Code running against the context: it returns a value and the context it
    leaves, or raises. *)
Definition M (A : Type) : Type := Context.t -> Result (A * Context.t).

Definition ret {A} (a : A) : M A := fun c => Ok (a, c).

Definition bind {A B} (m : M A) (k : A -> M B) : M B :=
  fun c => match m c with
           | Ok (a, c') => k a c'
           | Err e => Err e
           end.

Definition raise {A} (e : Error) : M A := fun _ => Err e.

Declare Scope conv_scope.
Delimit Scope conv_scope with conv.
Notation "x <- m ;; k" := (bind m (fun x => k))
  (at level 61, m at next level, right associativity) : conv_scope.
Notation "m ;;; k" := (bind m (fun _ => k))
  (at level 61, right associativity) : conv_scope.
Open Scope conv_scope.

(** [xs.forEach(f)] *)
Fixpoint forEach {A} (f : A -> M unit) (xs : list A) : M unit :=
  match xs with
  | [] => ret tt
  | x :: rest => f x ;;; forEach f rest
  end.

(** [xs.map(f)] for an effectful [f]: left to right. *)
Fixpoint mapM {A B} (f : A -> M B) (xs : list A) : M (list B) :=
  match xs with
  | [] => ret []
  | x :: rest => y <- f x ;; ys <- mapM f rest ;; ret (y :: ys)
  end.

Fixpoint lookup (registry : list (ts.SymbolId * ReflectionId)) (s : ts.SymbolId)
  : option ReflectionId :=
  match registry with
  | [] => None
  | (s', id) :: rest => if Nat.eqb s' s then Some id else lookup rest s
  end.

(** [new DeclarationReflection()] with the fields the caller assigns: the
    node joins the model and its id is returned. *)
Definition new (d : DeclarationReflection.t) : M ReflectionId :=
  fun c => Ok (List.length (Context.reflections c),
               Context.mk (Context.scope c) (Context.registry c)
                          (Context.visitStack c)
                          (Context.reflections c ++ [d]) (Context.events c)).

(** Modelled from the spec: [Context.registerReflection(reflection, node,
    symbol)] (not among the sources).  Section 4.3: the node is registered
    against the symbol in the registry. *)
Definition registerReflection (declaration : ReflectionId)
  (symbol : ts.SymbolId) : M unit :=
  fun c => Ok (tt, Context.mk (Context.scope c)
                     ((symbol, declaration) :: Context.registry c)
                     (Context.visitStack c) (Context.reflections c)
                     (Context.events c)).

(** Modelled from the spec: [Context.trigger(name, reflection, node)] (not
    among the sources).  Section 4.4: a single synchronous notification with
    the node and the originating syntax node. *)
Definition trigger (e : Event) : M unit :=
  fun c => Ok (tt, Context.mk (Context.scope c) (Context.registry c)
                     (Context.visitStack c) (Context.reflections c)
                     (Context.events c ++ [e])).

Definition setScope (s : option ReflectionId) (c : Context.t) : Context.t :=
  Context.mk s (Context.registry c) (Context.visitStack c)
             (Context.reflections c) (Context.events c).

(** Modelled from the spec: [Context.withScope(scope, callback)] (not among
    the sources).  Sections 4.3 and 5: the active scope is switched for the
    callback and restored after it. *)
Definition withScope {A} (scope : ReflectionId) (callback : M A) : M A :=
  fun c => match callback (setScope (Some scope) c) with
           | Ok (a, c') => Ok (a, setScope (Context.scope c) c')
           | Err e => Err e
           end.

(** Modelled from the spec: [createReferenceType(context, symbol)]
    ([converters/factories/reference], not among the sources).  Section 4.2:
    a registry hit gives a resolved reference to the registered node, a miss
    gives a pending reference that keeps the symbol it was asked for. *)
Definition createReferenceType (context : Context.t)
  (symbol : option ts.SymbolId) : Ty :=
  match symbol with
  | Some s =>
      match lookup (Context.registry context) s with
      | Some id => ReferenceType (Resolved id) None
      | None => ReferenceType (Pending symbol) None
      end
  | None => ReferenceType (Pending symbol) None
  end.

(** [result.typeArguments = args] *)
Definition setTypeArguments (result : Ty) (args : list Ty) : Ty :=
  match result with
  | ReferenceType target _ => ReferenceType target (Some args)
  | other => other
  end.

(** The two ways the source calls [convertType] of [converters/type]:
    [convertType(context, n)] with a type node and
    [convertType(context, null, t)] with a resolved type. *)
Inductive TypeArg :=
| ofNode (n : ts.TypeReferenceNode.t)
| ofType (t : ts.TypeReference.t).

(* ================================================================== *)
(** ** [ReferenceConverter] *)

Module ReferenceConverter.
Section Converter.

Variable P : ts.Program.

(** [convertNode] of [converters/node] and [convertType] of
    [converters/type]: the engine the converter calls back into. *)
Variable node_convertNode : ts.NodeId -> M unit.
Variable type_convertType : TypeArg -> M Ty.

Definition priority : Z := -50.

Definition supportsNode (context : Context.t) (node : ts.TypeReferenceNode.t)
  (type : ts.TypeReference.t) : bool :=
  negb (negb (js.truthy (js.bitand (ts.TypeReference.flags type)
                                   (ts.TypeFlags_ObjectType P)))).

Definition supportsType (context : Context.t) (type : ts.TypeReference.t)
  : bool :=
  negb (negb (js.truthy (js.bitand (ts.TypeReference.flags type)
                                   (ts.TypeFlags_ObjectType P)))).

(** The [for ... of] loop over [symbol.declarations]: [Some] is a [return]
    from inside the loop, [None] is falling out of it. *)
Fixpoint scanDeclarations (context : Context.t)
  (declarations : list ts.NodeId) : option (Result (Ty * Context.t)) :=
  match declarations with
  | [] => None
  | declaration :: rest =>
      if negb (js.indexOf (Context.visitStack context) declaration =? -1)
      then
        if ts.SyntaxKind.eqb (ts.Node.kind (ts.nodeOf P declaration))
                             ts.SyntaxKind.TypeLiteral
           || ts.SyntaxKind.eqb (ts.Node.kind (ts.nodeOf P declaration))
                                ts.SyntaxKind.ObjectLiteralExpression
        then
          match ts.Node.parent (ts.nodeOf P declaration) with
          | Some parent =>
              Some (Ok (createReferenceType context
                          (ts.Node.symbol (ts.nodeOf P parent)), context))
          | None => Some (Err TypeError)
          end
        else
          Some (Ok (createReferenceType context
                      (ts.Node.symbol (ts.nodeOf P declaration)), context))
      else scanDeclarations context rest
  end.

Definition convert (symbol : ts.SymbolId) (node : option ts.NodeId) : M Ty :=
  fun context =>
    match scanDeclarations context
            (ts.Symbol.declarations (ts.symbolOf P symbol)) with
    | Some returned => returned
    | None =>
        (declaration <- new (DeclarationReflection.mk
                               ReflectionKind.TypeLiteral "__type"
                               (Context.scope context) [] None) ;;
         registerReflection declaration symbol ;;;
         trigger (EVENT_CREATE_DECLARATION declaration node) ;;;
         withScope declaration
           (forEach (fun node => node_convertNode node)
                    (ts.Symbol.declarations (ts.symbolOf P symbol))) ;;;
         ret (ReflectionType declaration)) context
    end.

Definition isLiteralSymbol (symbol : ts.SymbolId) : bool :=
  js.truthy (js.bitand (ts.Symbol.flags (ts.symbolOf P symbol))
                       (ts.SymbolFlags_TypeLiteral P))
  || js.truthy (js.bitand (ts.Symbol.flags (ts.symbolOf P symbol))
                          (ts.SymbolFlags_ObjectLiteral P)).

Definition convertNode (node : ts.TypeReferenceNode.t)
  (type : ts.TypeReference.t) : M Ty :=
  fun context =>
    match ts.TypeReference.symbol type with
    | None => Ok (IntrinsicType "Object", context)
    | Some symbol =>
        if isLiteralSymbol symbol
        then convert symbol (Some (ts.TypeReferenceNode.id node)) context
        else
          let result := createReferenceType context (Some symbol) in
          match ts.TypeReferenceNode.typeArguments node with
          | Some typeArguments =>
              (args <- mapM (fun n => type_convertType (ofNode n))
                            typeArguments ;;
               ret (setTypeArguments result args)) context
          | None => Ok (result, context)
          end
    end.

Definition convertType (type : ts.TypeReference.t) : M Ty :=
  fun context =>
    match ts.TypeReference.symbol type with
    | None => Ok (IntrinsicType "Object", context)
    | Some symbol =>
        if isLiteralSymbol symbol
        then convert symbol None context
        else
          let result := createReferenceType context (Some symbol) in
          match ts.TypeReference.typeArguments type with
          | Some typeArguments =>
              (args <- mapM (fun t => type_convertType (ofType t))
                            typeArguments ;;
               ret (setTypeArguments result args)) context
          | None => Ok (result, context)
          end
    end.

End Converter.
End ReferenceConverter.

(* ================================================================== *)
(** ** The engine around the converter *)

Definition setVisitStack (s : list ts.NodeId) (c : Context.t) : Context.t :=
  Context.mk (Context.scope c) (Context.registry c) s
             (Context.reflections c) (Context.events c).

Fixpoint updateAt {A} (i : nat) (f : A -> A) (xs : list A) : list A :=
  match xs, i with
  | [], _ => []
  | x :: rest, O => f x :: rest
  | x :: rest, S j => x :: updateAt j f rest
  end.

Definition setReflections (r : list DeclarationReflection.t) (c : Context.t)
  : Context.t :=
  Context.mk (Context.scope c) (Context.registry c) (Context.visitStack c)
             r (Context.events c).

(** Used by the modelled walker: the child is appended to the children of
    the scope node. *)
Definition addChild (scope : option ReflectionId) (child : ReflectionId)
  : M unit :=
  fun c =>
    match scope with
    | Some parent =>
        Ok (tt, setReflections
                  (updateAt parent
                     (fun d => DeclarationReflection.mk
                                 (DeclarationReflection.kind d)
                                 (DeclarationReflection.name d)
                                 (DeclarationReflection.parent d)
                                 (DeclarationReflection.children d ++ [child])
                                 (DeclarationReflection.type d))
                     (Context.reflections c)) c)
    | None => Ok (tt, c)
    end.

(** Used by the modelled walker: the declared type of a node is set. *)
Definition setType (reflection : ReflectionId) (t : Ty) : M unit :=
  fun c =>
    Ok (tt, setReflections
              (updateAt reflection
                 (fun d => DeclarationReflection.mk
                             (DeclarationReflection.kind d)
                             (DeclarationReflection.name d)
                             (DeclarationReflection.parent d)
                             (DeclarationReflection.children d)
                             (Some t))
                 (Context.reflections c)) c).

Module Engine.
Section Engine.

Variable P : ts.Program.

(** The conversion used when no registered converter applies
    (section 4.1); what it yields is left open. *)
Variable defaultType : ts.TypeReference.t -> Ty.

(** Modelled from the spec: Declaration Conversion for one member (part of
    [converters/node], not among the sources).  Sections 2, 3 and 4.4: a
    child Declaration Node is created under the current scope, its creation
    is notified, and its type is converted with the child as scope. *)
Definition convertMember (convertType : TypeArg -> M Ty) (m : ts.Member.t)
  : M unit :=
  fun c =>
    (child <- new (DeclarationReflection.mk ReflectionKind.Property
                     (ts.Member.name m) (Context.scope c) [] None) ;;
     trigger (EVENT_CREATE_DECLARATION child (Some (ts.Member.node m))) ;;;
     addChild (Context.scope c) child ;;;
     t <- withScope child (convertType (ofNode (ts.Member.type m))) ;;
     setType child t) c.

(** Modelled from the spec: [convertNode(context, node)] of
    [converters/node] (not among the sources).  Sections 3 and 5: the
    declaration is on the visit stack exactly while it is being converted;
    its members are converted in order. *)
Definition walk (convertType : TypeArg -> M Ty) (declaration : ts.NodeId)
  : M unit :=
  fun c =>
    match forEach (convertMember convertType) (ts.membersOf P declaration)
            (setVisitStack (Context.visitStack c ++ [declaration]) c) with
    | Ok (_, c') => Ok (tt, setVisitStack (Context.visitStack c) c')
    | Err e => Err e
    end.

(** Modelled from the spec: the Type Converter Registry behind
    [convertType] of [converters/type] (not among the sources).  Section
    4.1: the first applicable converter is used, else the default
    conversion.  The reference converter is the only one registered here. *)
Definition dispatch (convertNode : ts.NodeId -> M unit)
  (convertType : TypeArg -> M Ty) (a : TypeArg) : M Ty :=
  fun c =>
    match a with
    | ofNode n =>
        let type := ts.getTypeAtLocation P (ts.TypeReferenceNode.id n) in
        if ReferenceConverter.supportsNode P c n type
        then ReferenceConverter.convertNode P convertNode convertType n type c
        else Ok (defaultType type, c)
    | ofType t =>
        if ReferenceConverter.supportsType P c t
        then ReferenceConverter.convertType P convertNode convertType t c
        else Ok (defaultType t, c)
    end.

(** The walker and the registry call each other through the converter;
    [fuel] bounds the depth of that recursion. *)
Fixpoint engine (fuel : nat) : (ts.NodeId -> M unit) * (TypeArg -> M Ty) :=
  match fuel with
  | O => (fun _ => raise OutOfFuel, fun _ => raise OutOfFuel)
  | S f => (walk (snd (engine f)),
            dispatch (fst (engine f)) (snd (engine f)))
  end.

Definition node_convertNode (fuel : nat) : ts.NodeId -> M unit :=
  fst (engine fuel).

Definition type_convertType (fuel : nat) : TypeArg -> M Ty :=
  snd (engine fuel).

(** The type-literal path run inside the engine. *)
Definition convert (fuel : nat) (symbol : ts.SymbolId)
  (node : option ts.NodeId) : M Ty :=
  ReferenceConverter.convert P (node_convertNode fuel) symbol node.

End Engine.
End Engine.

(* ================================================================== *)
(** ** The resolution pass *)

(** Modelled from the spec: re-resolving one reference (the pass itself is
    not among the sources).  Section 4.2: a pending reference is looked up in
    the final registry; found, it becomes resolved, and it degrades to the
    external marker otherwise. *)
Definition resolveTarget (registry : list (ts.SymbolId * ReflectionId))
  (t : Target) : Target :=
  match t with
  | Pending (Some s) =>
      match lookup registry s with
      | Some id => Resolved id
      | None => External
      end
  | Pending None => External
  | other => other
  end.

(** Modelled from the spec: the pass over a Type Node, type arguments
    included. *)
Fixpoint resolveType (registry : list (ts.SymbolId * ReflectionId)) (t : Ty)
  : Ty :=
  match t with
  | ReferenceType target args =>
      ReferenceType (resolveTarget registry target)
        (match args with
         | Some ts => Some (map (resolveType registry) ts)
         | None => None
         end)
  | other => other
  end.

Definition resolveReflection (registry : list (ts.SymbolId * ReflectionId))
  (d : DeclarationReflection.t) : DeclarationReflection.t :=
  DeclarationReflection.mk
    (DeclarationReflection.kind d) (DeclarationReflection.name d)
    (DeclarationReflection.parent d) (DeclarationReflection.children d)
    (match DeclarationReflection.type d with
     | Some t => Some (resolveType registry t)
     | None => None
     end).

(** Modelled from the spec: the post-pass of sections 4.2 and 5, one linear
    pass over the Declaration Nodes of the run that only fills in reference
    targets. *)
Definition resolveReferences : M unit :=
  fun c => Ok (tt, setReflections
                     (map (resolveReflection (Context.registry c))
                          (Context.reflections c)) c).

(** The reference targets inside a Type Node and inside the model, in
    order. *)
Fixpoint targets (t : Ty) : list Target :=
  match t with
  | ReferenceType target args =>
      target :: match args with
                | Some ts => flat_map targets ts
                | None => []
                end
  | _ => []
  end.

Definition reflectionTargets (d : DeclarationReflection.t) : list Target :=
  match DeclarationReflection.type d with
  | Some t => targets t
  | None => []
  end.

Definition modelTargets (c : Context.t) : list Target :=
  flat_map reflectionTargets (Context.reflections c).

Definition isPending (t : Target) : bool :=
  match t with
  | Pending _ => true
  | _ => false
  end.

(* ================================================================== *)
(** ** Flags *)

(** A number carries a flag of a mask when they share one of the 32 bits a
    bitwise operator looks at. *)
Definition carriesFlag (flags mask : Z) : Prop :=
  exists i, 0 <= i < 32 /\ Z.testbit flags i = true /\ Z.testbit mask i = true.

Fixpoint sharedBitBelow (n : nat) (x y : Z) : bool :=
  match n with
  | O => false
  | S k => (Z.testbit x (Z.of_nat k) && Z.testbit y (Z.of_nat k))
           || sharedBitBelow k x y
  end.

(* ================================================================== *)
(** ** Notions used to state the properties *)

(** The declaration kinds the cycle check singles out. *)
Definition isLiteralKind (k : ts.SyntaxKind.t) : bool :=
  match k with
  | ts.SyntaxKind.TypeLiteral | ts.SyntaxKind.ObjectLiteralExpression => true
  | _ => false
  end.

(** A Reference Type Node points at symbol [s]: it is resolved to the node
    registered for [s], or it is pending on [s]. *)
Definition targetsSymbol (context : Context.t) (t : Ty) (s : ts.SymbolId)
  : Prop :=
  match t with
  | ReferenceType (Resolved id) _ => lookup (Context.registry context) s = Some id
  | ReferenceType (Pending s') _ => s' = Some s
  | _ => False
  end.

Definition isReferenceType (t : Ty) : bool :=
  match t with
  | ReferenceType _ _ => true
  | _ => false
  end.

(** No declaration of the symbol is on the visit stack. *)
Definition noneOnStack (P : ts.Program) (context : Context.t)
  (symbol : ts.SymbolId) : Prop :=
  forall d, In d (ts.Symbol.declarations (ts.symbolOf P symbol)) ->
            ~ In d (Context.visitStack context).

(** The arguments [xs] are converted one after the other, each from the
    context the previous one left, giving [ts] in the same order. *)
Inductive convertedInOrder (convertType : TypeArg -> M Ty)
  : list TypeArg -> Context.t -> list Ty -> Context.t -> Prop :=
| convertedNone c : convertedInOrder convertType [] c [] c
| convertedNext a rest c t c1 ts c2 :
    convertType a c = Ok (t, c1) ->
    convertedInOrder convertType rest c1 ts c2 ->
    convertedInOrder convertType (a :: rest) c (t :: ts) c2.

(** How often a creation notification was fired for a node. *)
Fixpoint countCreated (id : ReflectionId) (events : list Event) : nat :=
  match events with
  | [] => O
  | EVENT_CREATE_DECLARATION d _ :: rest =>
      (if Nat.eqb d id then 1 else 0) + countCreated id rest
  end%nat.

(** The synthetic Declaration Node of a type literal converted in [scope]. *)
Definition typeLiteralReflection (scope : option ReflectionId)
  : DeclarationReflection.t :=
  DeclarationReflection.mk ReflectionKind.TypeLiteral "__type" scope [] None.

(** The context in which [convert] starts converting the declarations of a
    symbol it found on no visit stack: the synthetic node is in the model,
    registered for the symbol and notified, and it is the scope. *)
Definition contextForChildren (c : Context.t) (symbol : ts.SymbolId)
  (node : option ts.NodeId) : Context.t :=
  Context.mk (Some (List.length (Context.reflections c)))
             ((symbol, List.length (Context.reflections c)) :: Context.registry c)
             (Context.visitStack c)
             (Context.reflections c ++ [typeLiteralReflection (Context.scope c)])
             (Context.events c
              ++ [EVENT_CREATE_DECLARATION (List.length (Context.reflections c)) node]).

(** Nesting depth of the explicit type arguments of a type node, and of the
    type arguments of a resolved type. *)
Fixpoint nodeHeight (n : ts.TypeReferenceNode.t) : nat :=
  match n with
  | ts.TypeReferenceNode.mk _ (Some args) => S (list_max (map nodeHeight args))
  | ts.TypeReferenceNode.mk _ None => 1
  end.

Fixpoint typeHeight (t : ts.TypeReference.t) : nat :=
  match t with
  | ts.TypeReference.mk _ _ (Some args) => S (list_max (map typeHeight args))
  | ts.TypeReference.mk _ _ None => 1
  end.

Definition argHeight (a : TypeArg) : nat :=
  match a with
  | ofNode n => nodeHeight n
  | ofType t => typeHeight t
  end.

Definition onStack (stack : list ts.NodeId) (d : ts.NodeId) : bool :=
  existsb (Nat.eqb d) stack.

(** How many of the declarations [U] are not on the visit stack. *)
Definition remaining (U : list ts.NodeId) (stack : list ts.NodeId) : nat :=
  List.length (filter (fun d => negb (onStack stack d)) U).

(** The registrations made for a symbol, newest first. *)
Definition registrations (s : ts.SymbolId) (c : Context.t)
  : list (ts.SymbolId * ReflectionId) :=
  filter (fun p => Nat.eqb (fst p) s) (Context.registry c).

(** A Reference Type Node leads to Declaration Node [id]: resolved to it, or
    pending on a symbol the registry maps to it. *)
Definition leadsTo (c : Context.t) (t : Ty) (id : ReflectionId) : Prop :=
  match t with
  | ReferenceType (Resolved i) _ => i = id
  | ReferenceType (Pending (Some s)) _ => lookup (Context.registry c) s = Some id
  | _ => False
  end.

(** A computation that, from any context with visit stack [s], returns and
    leaves that visit stack in place. *)
Definition keepsStack {A} (s : list ts.NodeId) (m : M A) : Prop :=
  forall c, Context.visitStack c = s ->
            exists a c', m c = Ok (a, c') /\ Context.visitStack c' = s.

(** The symbol a self-reference is pointed at when declaration [m] is found
    on the visit stack: the parent's symbol for a literal, else [m]'s own. *)
Definition selfReferenceTarget (P : ts.Program) (m : ts.NodeId)
  : option ts.SymbolId :=
  if isLiteralKind (ts.Node.kind (ts.nodeOf P m))
  then match ts.Node.parent (ts.nodeOf P m) with
       | Some parent => ts.Node.symbol (ts.nodeOf P parent)
       | None => None
       end
  else ts.Node.symbol (ts.nodeOf P m).

(** [c'] has the visit stack of [c], and no further registration for symbol
    [s] if a declaration of [s] is on that stack (or is [extra]). *)
Definition quietFor (P : ts.Program) (s : ts.SymbolId)
  (extra : list ts.NodeId) (c c' : Context.t) : Prop :=
  Context.visitStack c' = Context.visitStack c
  /\ ((exists d, In d (ts.Symbol.declarations (ts.symbolOf P s))
                 /\ In d (Context.visitStack c ++ extra)) ->
      registrations s c' = registrations s c).

Definition quiet (P : ts.Program) (s : ts.SymbolId) : Context.t -> Context.t -> Prop :=
  quietFor P s [].

(** Whenever [m] returns, the contexts before and after are related by [R]. *)
Definition respects {A} (R : Context.t -> Context.t -> Prop) (m : M A) : Prop :=
  forall c a c', m c = Ok (a, c') -> R c c'.

(** A walker that converts nothing and insists on a given visit stack. *)
Definition expectVisitStack (expected : list ts.NodeId) : ts.NodeId -> M unit :=
  fun _ c =>
    if list_eq_dec Nat.eq_dec (Context.visitStack c) expected
    then Ok (tt, c) else Err TypeError.

(** A walker and a registry that do nothing. *)
Definition idleWalker : ts.NodeId -> M unit := fun _ => ret tt.
Definition idleRegistry : TypeArg -> M Ty := fun _ => ret (IntrinsicType "any").

Definition emptyContext : Context.t := Context.mk None [] [] [] [].

(* ================================================================== *)
(** ** A sample program

<<
    type T = { self: T };          // alias 10, literal 11, member 12, site 13
    type F = (x: F) => void;       // alias 20, function type 21
>>
    Symbols: 0 is [T], 1 the literal's [__type], 2 the member [self], 3 is
    [F], 4 the function type's [__type]; 5 and 6 are symbols without
    declarations, 6 flagged as a type literal. *)
Module Sample.

Local Open Scope nat_scope.

Definition symbolOf (s : ts.SymbolId) : ts.Symbol.t :=
  match s with
  | 0 => ts.Symbol.mk 524288 [10]
  | 1 => ts.Symbol.mk 2048 [11]
  | 2 => ts.Symbol.mk 4 [12]
  | 3 => ts.Symbol.mk 524288 [20]
  | 4 => ts.Symbol.mk 2048 [21]
  | 6 => ts.Symbol.mk 2048 []
  | _ => ts.Symbol.mk 0 []
  end%nat.

Definition nodeOf (n : ts.NodeId) : ts.Node.t :=
  match n with
  | 10 => ts.Node.mk ts.SyntaxKind.TypeAliasDeclaration None (Some 0)
  | 11 => ts.Node.mk ts.SyntaxKind.TypeLiteral (Some 10) (Some 1)
  | 12 => ts.Node.mk ts.SyntaxKind.PropertySignature (Some 11) (Some 2)
  | 20 => ts.Node.mk ts.SyntaxKind.TypeAliasDeclaration None (Some 3)
  | 21 => ts.Node.mk ts.SyntaxKind.FunctionType (Some 20) (Some 4)
  | _ => ts.Node.mk ts.SyntaxKind.TypeReference None None
  end%nat.

Definition membersOf (n : ts.NodeId) : list ts.Member.t :=
  match n with
  | 11 => [ts.Member.mk "self" 12 (ts.TypeReferenceNode.mk 13 None)]
  | _ => []
  end%nat.

(** The literal's own type: an anonymous object type owned by symbol 1. *)
Definition literalType : ts.TypeReference.t :=
  ts.TypeReference.mk 32768 (Some 1%nat) None.

(** The function type's own type, owned by symbol 4. *)
Definition functionType : ts.TypeReference.t :=
  ts.TypeReference.mk 32768 (Some 4%nat) None.

(** A type whose symbol has no declarations and no literal flag. *)
Definition bareType : ts.TypeReference.t :=
  ts.TypeReference.mk 32768 (Some 5%nat) None.

(** A type whose symbol has no declarations and the type-literal flag. *)
Definition bareLiteralType : ts.TypeReference.t :=
  ts.TypeReference.mk 32768 (Some 6%nat) None.

(** A type without a symbol. *)
Definition ownerlessType : ts.TypeReference.t :=
  ts.TypeReference.mk 32768 None None.

(** A named generic reference [T<T>] by resolved type. *)
Definition genericType : ts.TypeReference.t :=
  ts.TypeReference.mk 4096 (Some 0%nat)
    (Some [ts.TypeReference.mk 4096 (Some 0%nat) None]).

Definition getTypeAtLocation (n : ts.NodeId) : ts.TypeReference.t :=
  match n with
  | 13 => literalType
  | _ => ts.TypeReference.mk 1 None None
  end%nat.

(** The flag masks are sample values: 48128 for the object types, 2048 for
    type literals, 4096 for object literals. *)
Definition program : ts.Program :=
  ts.mkProgram 48128 2048 4096 symbolOf nodeOf membersOf getTypeAtLocation.

Definition site : ts.TypeReferenceNode.t := ts.TypeReferenceNode.mk 13 None.

Definition defaultType : ts.TypeReference.t -> Ty :=
  fun _ => IntrinsicType "unknown".

(** All declarations of the program. *)
Definition declarations : list ts.NodeId := [10; 11; 12; 20; 21].

(** The context while alias 10 is being converted: [T] is registered for
    its own Declaration Node 0, which is the scope. *)
Definition insideAlias : Context.t :=
  Context.mk (Some 0%nat) [(0%nat, 0%nat)] [10%nat]
             [DeclarationReflection.mk ReflectionKind.TypeAlias "T" None [] None]
             [EVENT_CREATE_DECLARATION 0 (Some 10%nat)].

(** A finished run that left a reference pending on symbol 0, which no
    node was registered for. *)
Definition finished : Context.t :=
  Context.mk None [(1%nat, 0%nat)] []
             [DeclarationReflection.mk ReflectionKind.TypeLiteral "__type"
                None [1%nat] None;
              DeclarationReflection.mk ReflectionKind.Property "self"
                (Some 0%nat) [] (Some (ReferenceType (Pending (Some 0%nat)) None))]
             [EVENT_CREATE_DECLARATION 0 (Some 11%nat);
              EVENT_CREATE_DECLARATION 1 (Some 12%nat)].

(** The context while literal 11 is being converted: the literal's symbol
    is registered for node 0 and the literal is on the visit stack. *)
Definition insideLiteral : Context.t :=
  Context.mk (Some 0%nat) [(1%nat, 0%nat)] [11%nat]
             [typeLiteralReflection None]
             [EVENT_CREATE_DECLARATION 0 None].

(** The context while function type 21 is being converted. *)
Definition insideFunctionType : Context.t :=
  Context.mk (Some 0%nat) [(4%nat, 0%nat)] [21%nat]
             [typeLiteralReflection None]
             [EVENT_CREATE_DECLARATION 0 None].

End Sample.

(* ================================================================== *)
(** ** Further notions for the converter *)

(** Two states of a Declaration Node with the same kind, name and parent. *)
Definition sameIdentity (d d' : DeclarationReflection.t) : Prop :=
  DeclarationReflection.kind d' = DeclarationReflection.kind d
  /\ DeclarationReflection.name d' = DeclarationReflection.name d
  /\ DeclarationReflection.parent d' = DeclarationReflection.parent d.

(** [c'] continues [c]: every Declaration Node of [c] is still there under
    its id, with its kind, name and parent, and the notifications of [c] are
    still the first ones. *)
Definition continues (c c' : Context.t) : Prop :=
  (forall id d, nth_error (Context.reflections c) id = Some d ->
                exists d', nth_error (Context.reflections c') id = Some d'
                           /\ sameIdentity d d')
  /\ (exists fired, Context.events c' = Context.events c ++ fired).

(** Two visit stacks hold the same declarations, in whatever order and
    however often. *)
Definition sameDeclarations (s s' : list ts.NodeId) : Prop :=
  forall d, In d s <-> In d s'.

(** The type arguments a Type Node carries, when it is a reference. *)
Definition typeArgumentsOf (t : Ty) : option (list Ty) :=
  match t with
  | ReferenceType _ args => args
  | _ => None
  end.

(* ================================================================== *)
(** ** The accordion component

    The second class of the source text, [Accordion]: a [details] element
    whose open state is animated and kept in storage.  The element, the
    storage module and the animations the browser runs are state that is
    threaded explicitly; an animation that has been started stays in
    [running], together with the [opening] flag its finish listener has
    captured, until the browser finishes it. *)

Module Accordion.

(** [value.toString()] for a boolean. *)
Definition booleanToString (b : bool) : string :=
  if b then "true"%string else "false"%string.

(** Number to string for an integer, as in [n + "px"] and in a template. *)
Definition numberToString (n : Z) : string :=
  NilZero.string_of_int (Z.to_int n).

(** Truthiness of a string: everything but the empty string. *)
Definition truthyString (s : string) : bool := negb (String.eqb s "").

(** [el.style] and [el.open] of the [HTMLDetailsElement]. *)
Record Style := mkStyle {
  position : string;
  left : string;
  height : string;
  overflow : string
}.

Record Element := mkElement {
  open : bool;
  style : Style
}.

Record AnimationOptions := mkOptions {
  duration : Z;
  easing : string
}.

(** An animation started by [animate]: the one on the element, between two
    heights, and the one on the icon, between two transforms.  [opening] is
    what the finish listener of the animation was given. *)
Inductive Animation :=
| HeightAnimation (startHeight endHeight : string)
    (options : AnimationOptions) (opening : bool)
| TransformAnimation (startTransform endTransform : string)
    (options : AnimationOptions) (opening : bool).

Definition isHeightAnimation (x : Animation) : bool :=
  match x with
  | HeightAnimation _ _ _ _ => true
  | TransformAnimation _ _ _ _ => false
  end.

Section Component.

(** The [storage] object of [utils/storage], the layout engine behind
    [el.offsetHeight] and the built-in
    [text.replace(/\s+/g, "-").toLowerCase()] are left open. *)
Context {Storage : Type}.
Variable getItem : Storage -> string -> option string.
Variable setItem : Storage -> string -> string -> Storage.
Variable offsetHeight : Element -> Z.
Variable slug : string -> string.

Record t := mk {
  el : Element;
  iconTransform : string;
  key : string;
  animation : option Animation;
  collapsedHeight : string;
  expandedHeight : string;
  storage : Storage;
  running : list Animation
}.

Definition setOpen (b : bool) (a : t) : t :=
  mk (mkElement b (style (el a))) (iconTransform a) (key a) (animation a)
     (collapsedHeight a) (expandedHeight a) (storage a) (running a).

Definition setStyle (s : Style) (a : t) : t :=
  mk (mkElement (open (el a)) s) (iconTransform a) (key a) (animation a)
     (collapsedHeight a) (expandedHeight a) (storage a) (running a).

Definition setOverflow (v : string) (a : t) : t :=
  setStyle (mkStyle (position (style (el a))) (left (style (el a)))
                    (height (style (el a))) v) a.

Definition setHeight (v : string) (a : t) : t :=
  setStyle (mkStyle (position (style (el a))) (left (style (el a)))
                    v (overflow (style (el a)))) a.

Definition setIconTransform (v : string) (a : t) : t :=
  mk (el a) v (key a) (animation a) (collapsedHeight a) (expandedHeight a)
     (storage a) (running a).

Definition setAnimation (x : option Animation) (a : t) : t :=
  mk (el a) (iconTransform a) (key a) x (collapsedHeight a) (expandedHeight a)
     (storage a) (running a).

Definition setRunning (r : list Animation) (a : t) : t :=
  mk (el a) (iconTransform a) (key a) (animation a) (collapsedHeight a)
     (expandedHeight a) (storage a) r.

Definition setStorage (s : Storage) (a : t) : t :=
  mk (el a) (iconTransform a) (key a) (animation a) (collapsedHeight a)
     (expandedHeight a) s (running a).

Definition setKey (k : string) (a : t) : t :=
  mk (el a) (iconTransform a) k (animation a) (collapsedHeight a)
     (expandedHeight a) (storage a) (running a).

Definition getIconRotation (open : bool) : string :=
  ("rotate(" ++ numberToString (if open then 0 else -90) ++ "deg)")%string.

Definition calculateHeights (a : t) : t :=
  let isOpen := open (el a) in
  let position := position (style (el a)) in
  let left := left (style (el a)) in
  let e1 := mkElement isOpen
              (mkStyle "fixed" left (height (style (el a)))
                       (overflow (style (el a)))) in
  let e2 := mkElement isOpen
              (mkStyle "fixed" "-9999px" (height (style (el a)))
                       (overflow (style (el a)))) in
  let e3 := mkElement true (style e2) in
  let expandedHeight := (numberToString (offsetHeight e3) ++ "px")%string in
  let e4 := mkElement false (style e3) in
  let collapsedHeight := (numberToString (offsetHeight e4) ++ "px")%string in
  let e5 := mkElement isOpen (style e4) in
  let e6 := mkElement isOpen
              (mkStyle "fixed" "-9999px"
                       (if isOpen then expandedHeight else collapsedHeight)
                       (overflow (style e5))) in
  let e7 := mkElement isOpen
              (mkStyle position "-9999px" (height (style e6))
                       (overflow (style e6))) in
  let e8 := mkElement isOpen
              (mkStyle position left (height (style e7))
                       (overflow (style e7))) in
  mk e8 (iconTransform a) (key a) (animation a) collapsedHeight expandedHeight
     (storage a) (running a).

Definition animate (startHeight endHeight : string) (opening : bool)
  (duration : Z) (a : t) : t :=
  match animation a with
  | Some _ => a
  | None =>
      let animationOptions := mkOptions duration "ease" in
      let elAnimation :=
        HeightAnimation startHeight endHeight animationOptions opening in
      let iconAnimation :=
        TransformAnimation
          (if truthyString (iconTransform a) then iconTransform a
           else getIconRotation (negb opening))
          (getIconRotation opening) animationOptions opening in
      setRunning (running a ++ [elAnimation; iconAnimation])
                 (setAnimation (Some elAnimation) a)
  end.

Definition expand (animate_ : bool) (a : t) : t :=
  let a := setOpen true a in
  animate (collapsedHeight a) (expandedHeight a) true
          (if animate_ then 300 else 0) a.

Definition collapse (animate_ : bool) (a : t) : t :=
  animate (expandedHeight a) (collapsedHeight a) false
          (if animate_ then 300 else 0) a.

(** The click listener; [event.preventDefault()] touches nothing of the
    component. *)
Definition toggleVisibility (a : t) : t :=
  let a := setOverflow "hidden" a in
  if negb (open (el a)) then expand true a else collapse true a.

Definition fromLocalStorage (a : t) : bool :=
  match getItem (storage a) (key a) with
  | Some fromLocalStorage =>
      if truthyString fromLocalStorage
      then String.eqb fromLocalStorage "true"
      else open (el a)
  | None => open (el a)
  end.

Definition handleValueChange (force : bool) (a : t) : t :=
  if Bool.eqb (fromLocalStorage a) (open (el a)) && negb force then a
  else if fromLocalStorage a then expand false a else collapse false a.

Definition setLocalStorage (value : bool) (force : bool) (a : t) : t :=
  if Bool.eqb (fromLocalStorage a) value && negb force then a
  else
    let a := setStorage (setItem (storage a) (key a) (booleanToString value)) a in
    let a := setOpen value a in
    handleValueChange force a.

Definition animationEnd (isOpen : bool) (a : t) : t :=
  let a := setOpen isOpen a in
  let a := setAnimation None a in
  let a := setHeight "auto" a in
  let a := setOverflow "visible" a in
  setLocalStorage isOpen false a.

(** The constructor, given the element, the text of its summary, the
    transform of its icon and the storage; the fields without an initializer
    hold the empty string until they are assigned. *)
Definition constructor (element : Element) (summaryText : string)
  (transform : string) (store : Storage) : t :=
  let a := mk element transform "" None "" "" store [] in
  let a := calculateHeights a in
  let a := setKey ("tsd-accordion-" ++ slug summaryText)%string a in
  let a := setLocalStorage (fromLocalStorage a) true a in
  setIconTransform (getIconRotation (open (el a))) a.

(** The finish listener registered on an animation. *)
Definition onFinish (x : Animation) (a : t) : t :=
  match x with
  | HeightAnimation _ _ _ opening => animationEnd opening a
  | TransformAnimation _ _ _ opening =>
      setIconTransform (getIconRotation opening) a
  end.

Fixpoint removeAt {A} (i : nat) (xs : list A) : list A :=
  match xs, i with
  | [], _ => []
  | _ :: rest, O => rest
  | x :: rest, S j => x :: removeAt j rest
  end.

(** The browser finishes the [i]-th running animation and calls its finish
    listener. *)
Definition finish (i : nat) (a : t) : t :=
  match nth_error (running a) i with
  | Some x => onFinish x (setRunning (removeAt i (running a)) a)
  | None => a
  end.

(** The number of height animations the browser is running. *)
Definition heightAnimations (a : t) : nat :=
  List.length (filter isHeightAnimation (running a)).

(** At most one height animation runs, and [this.animation] is set exactly
    while it does. *)
Definition oneAtATime (a : t) : Prop :=
  heightAnimations a = match animation a with Some _ => 1%nat | None => 0%nat end.

(** Nothing is in progress. *)
Definition idle (a : t) : Prop := animation a = None /\ running a = [].

(** A click followed by the end of both animations it started, the height
    animation first. *)
Definition clickAndSettle (a : t) : t :=
  finish 0 (finish 0 (toggleVisibility a)).

End Component.

(** A storage that keeps what it is given. *)
Definition faithful {Storage : Type}
  (getItem : Storage -> string -> option string)
  (setItem : Storage -> string -> string -> Storage) : Prop :=
  forall s k v, getItem (setItem s k v) k = Some v.

(** A storage that keeps what it is given, or forgets it. *)
Definition faithfulOrSilent {Storage : Type}
  (getItem : Storage -> string -> option string)
  (setItem : Storage -> string -> string -> Storage) : Prop :=
  forall s k v, getItem (setItem s k v) k = Some v
                \/ getItem (setItem s k v) k = None.

(** A storage for trying things out: the items, newest first. *)
Definition Items := list (string * string).

Fixpoint getFrom (s : Items) (k : string) : option string :=
  match s with
  | [] => None
  | (k', v) :: rest => if String.eqb k' k then Some v else getFrom rest k
  end.

Definition putInto (s : Items) (k v : string) : Items := (k, v) :: s.

(** A closed accordion titled [Settings], with nothing stored. *)
Definition sampleElement : Element :=
  mkElement false (mkStyle "" "" "" "")%string.

Definition sampleHeights (e : Element) : Z := if open e then 120 else 24.

Definition sample : @t Items :=
  constructor getFrom putInto sampleHeights (fun s => s)
    sampleElement "settings"%string ""%string [].

(** The sample once the animation started by its constructor is over. *)
Definition settled : @t Items :=
  finish getFrom putInto 0 (finish getFrom putInto 0 sample).

End Accordion.

(* ================================================================== *)
(** * Properties *)

Lemma sharedBitBelow_true n x y :
  sharedBitBelow n x y = true ->
  exists i, 0 <= i < Z.of_nat n /\ Z.testbit x i = true /\ Z.testbit y i = true.
Proof.
  induction n as [|k IH]; simpl; [discriminate|].
  intros H. apply orb_true_iff in H. destruct H as [H|H].
  - apply andb_true_iff in H. exists (Z.of_nat k). split; [lia|exact H].
  - destruct (IH H) as (i & Hi & Hx). exists i. split; [lia|exact Hx].
Qed.

Lemma sharedBitBelow_false n x y :
  sharedBitBelow n x y = false ->
  forall i, 0 <= i < Z.of_nat n -> Z.testbit x i && Z.testbit y i = false.
Proof.
  induction n as [|k IH]; simpl; intros H i Hi; [lia|].
  apply orb_false_iff in H. destruct H as [Hk Hrest].
  destruct (Z.eq_dec i (Z.of_nat k)) as [->|Hne]; [exact Hk|].
  apply IH; [exact Hrest|lia].
Qed.

Lemma toInt32_range x : - 2 ^ 31 <= js.toInt32 x < 2 ^ 31.
Proof.
  unfold js.toInt32.
  pose proof (Z.mod_pos_bound (x + 2 ^ 31) (2 ^ 32) ltac:(lia)). lia.
Qed.

Lemma toInt32_low_bits x i :
  0 <= i < 32 -> Z.testbit (js.toInt32 x) i = Z.testbit x i.
Proof.
  intros Hi.
  rewrite <- (Z.mod_pow2_bits_low (js.toInt32 x) 32 i) by lia.
  rewrite <- (Z.mod_pow2_bits_low x 32 i) by lia.
  f_equal. unfold js.toInt32.
  rewrite Zminus_mod_idemp_l. f_equal. lia.
Qed.

Lemma int32_high_bits x i :
  - 2 ^ 31 <= x < 2 ^ 31 -> 31 <= i -> Z.testbit x i = Z.testbit x 31.
Proof.
  intros Hx Hi.
  destruct (Z_lt_le_dec x 0) as [Hneg|Hpos].
  - assert (Hb : forall j, 31 <= j -> Z.testbit x j = true).
    { intros j Hj.
      replace x with (Z.lnot (Z.lnot x)) by apply Z.lnot_involutive.
      rewrite Z.lnot_spec by lia.
      assert (Hl : 0 <= Z.lnot x < 2 ^ 31) by (unfold Z.lnot, Z.pred; lia).
      destruct (Z.eq_dec (Z.lnot x) 0) as [E|E].
      - rewrite E, Z.bits_0. reflexivity.
      - rewrite Z.bits_above_log2; [reflexivity|lia|].
        apply Z.log2_lt_pow2; [lia|].
        apply Z.lt_le_trans with (2 ^ 31); [lia|apply Z.pow_le_mono_r; lia]. }
    rewrite (Hb i Hi), (Hb 31); [reflexivity|lia].
  - assert (Hb : forall j, 31 <= j -> Z.testbit x j = false).
    { intros j Hj.
      destruct (Z.eq_dec x 0) as [E|E].
      - rewrite E, Z.bits_0. reflexivity.
      - apply Z.bits_above_log2; [lia|]. apply Z.log2_lt_pow2; [lia|].
        apply Z.lt_le_trans with (2 ^ 31); [lia|apply Z.pow_le_mono_r; lia]. }
    rewrite (Hb i Hi), (Hb 31); [reflexivity|lia].
Qed.

Lemma truthy_bitand_iff flags mask :
  js.truthy (js.bitand flags mask) = true <-> carriesFlag flags mask.
Proof.
  unfold js.truthy, js.bitand, carriesFlag. rewrite negb_true_iff, Z.eqb_neq.
  split.
  - intros Hne.
    destruct (sharedBitBelow 32 flags mask) eqn:E.
    + apply sharedBitBelow_true in E. exact E.
    + exfalso. apply Hne. apply Z.bits_inj_0. intros n.
      destruct (Z_lt_le_dec n 0) as [Hn|Hn]; [apply Z.testbit_neg_r; exact Hn|].
      rewrite Z.land_spec.
      destruct (Z_lt_le_dec n 32) as [Hlow|Hhigh].
      * rewrite !toInt32_low_bits by lia.
        apply (sharedBitBelow_false 32); [exact E|simpl; lia].
      * rewrite (int32_high_bits _ _ (toInt32_range flags)) by lia.
        rewrite (int32_high_bits _ _ (toInt32_range mask)) by lia.
        rewrite !toInt32_low_bits by lia.
        apply (sharedBitBelow_false 32); [exact E|simpl; lia].
  - intros (i & Hi & Hf & Hm) Hz.
    assert (Hb : Z.testbit (Z.land (js.toInt32 flags) (js.toInt32 mask)) i = true).
    { rewrite Z.land_spec, !toInt32_low_bits by lia. rewrite Hf, Hm. reflexivity. }
    rewrite Hz, Z.bits_0 in Hb. discriminate.
Qed.

(** C9.  [supportsNode] and [supportsType] answer [true] exactly for the types
    whose flags carry a flag of the object-type category
    ([ts.TypeFlags.ObjectType]); every other type is declared unsupported,
    whatever the context and the node. *)
Theorem supports_iff_object_type (P : ts.Program) (context : Context.t)
  (node : ts.TypeReferenceNode.t) (type : ts.TypeReference.t) :
  (ReferenceConverter.supportsNode P context node type = true
   <-> carriesFlag (ts.TypeReference.flags type) (ts.TypeFlags_ObjectType P))
  /\ (ReferenceConverter.supportsType P context type = true
      <-> carriesFlag (ts.TypeReference.flags type) (ts.TypeFlags_ObjectType P))
  /\ (ReferenceConverter.supportsNode P context node type = false
      <-> ~ carriesFlag (ts.TypeReference.flags type) (ts.TypeFlags_ObjectType P))
  /\ (ReferenceConverter.supportsType P context type = false
      <-> ~ carriesFlag (ts.TypeReference.flags type) (ts.TypeFlags_ObjectType P)).
Proof.
  unfold ReferenceConverter.supportsNode, ReferenceConverter.supportsType.
  rewrite negb_involutive.
  pose proof (truthy_bitand_iff (ts.TypeReference.flags type)
                (ts.TypeFlags_ObjectType P)) as H.
  repeat split; try (apply H).
  - intros Hf Hc. apply H in Hc. congruence.
  - intros Hn. destruct (js.truthy _) eqn:E; [|reflexivity].
    exfalso. apply Hn, H. reflexivity.
  - intros Hf Hc. apply H in Hc. congruence.
  - intros Hn. destruct (js.truthy _) eqn:E; [|reflexivity].
    exfalso. apply Hn, H. reflexivity.
Qed.

(* ================================================================== *)
(** ** The cycle check *)

Lemma indexOfFrom_absent xs x i :
  0 <= i -> (js.indexOfFrom xs x i = -1 <-> ~ In x xs).
Proof.
  revert i. induction xs as [|y ys IH]; simpl; intros i Hi.
  - split; [intros _ []|reflexivity].
  - destruct (Nat.eqb y x) eqn:E.
    + apply Nat.eqb_eq in E. split; [lia|]. intros H. exfalso. apply H. left; exact E.
    + apply Nat.eqb_neq in E. rewrite (IH (i + 1)) by lia.
      split; [intros H [H'|H']; [exact (E H')|exact (H H')]
             |intros H H'; apply H; right; exact H'].
Qed.

Lemma indexOf_absent xs x : js.indexOf xs x = -1 <-> ~ In x xs.
Proof. apply indexOfFrom_absent. lia. Qed.

Lemma onStack_false c d :
  ~ In d (Context.visitStack c) ->
  negb (js.indexOf (Context.visitStack c) d =? -1) = false.
Proof.
  intros H. apply indexOf_absent in H. rewrite H. reflexivity.
Qed.

Lemma onStack_true c d :
  In d (Context.visitStack c) ->
  negb (js.indexOf (Context.visitStack c) d =? -1) = true.
Proof.
  intros H. apply negb_true_iff, Z.eqb_neq. intros E.
  apply indexOf_absent in E. exact (E H).
Qed.

Lemma scan_skip P c pre rest :
  (forall x, In x pre -> ~ In x (Context.visitStack c)) ->
  ReferenceConverter.scanDeclarations P c (pre ++ rest)
  = ReferenceConverter.scanDeclarations P c rest.
Proof.
  induction pre as [|x pre IH]; simpl; intros H; [reflexivity|].
  rewrite onStack_false by (apply H; left; reflexivity).
  apply IH. intros y Hy. apply H. right; exact Hy.
Qed.

Lemma scan_none P c decls :
  (forall x, In x decls -> ~ In x (Context.visitStack c)) ->
  ReferenceConverter.scanDeclarations P c decls = None.
Proof.
  intros H. rewrite <- (app_nil_r decls). rewrite scan_skip by exact H.
  reflexivity.
Qed.

Lemma isLiteralKind_eqb k :
  ts.SyntaxKind.eqb k ts.SyntaxKind.TypeLiteral
  || ts.SyntaxKind.eqb k ts.SyntaxKind.ObjectLiteralExpression
  = isLiteralKind k.
Proof. destruct k; reflexivity. Qed.

(** The first declaration on the visit stack exists as soon as one is. *)
Lemma first_on_stack (stack decls : list nat) d :
  In d decls -> In d stack ->
  exists pre m post, decls = pre ++ m :: post
                     /\ (forall x, In x pre -> ~ In x stack) /\ In m stack.
Proof.
  induction decls as [|x xs IH]; intros Hd Hs; [destruct Hd|].
  destruct (in_dec Nat.eq_dec x stack) as [Hx|Hx].
  - exists [], x, xs. split; [reflexivity|]. split; [intros ? []|exact Hx].
  - destruct Hd as [->|Hd]; [contradiction|].
    destruct (IH Hd Hs) as (pre & m & post & E & Hpre & Hm).
    exists (x :: pre), m, post. subst xs. split; [reflexivity|].
    split; [|exact Hm]. intros y [<-|Hy]; [exact Hx|exact (Hpre y Hy)].
Qed.

Lemma createReferenceType_targets c s :
  targetsSymbol c (createReferenceType c (Some s)) s
  /\ isReferenceType (createReferenceType c (Some s)) = true.
Proof.
  unfold createReferenceType.
  destruct (lookup (Context.registry c) s) eqn:E; simpl; auto.
Qed.

(** What the scan returns once the first declaration on the stack is known. *)
Lemma scan_matched P c pre m post :
  (forall x, In x pre -> ~ In x (Context.visitStack c)) ->
  In m (Context.visitStack c) ->
  ReferenceConverter.scanDeclarations P c (pre ++ m :: post)
  = if isLiteralKind (ts.Node.kind (ts.nodeOf P m))
    then match ts.Node.parent (ts.nodeOf P m) with
         | Some parent =>
             Some (Ok (createReferenceType c
                         (ts.Node.symbol (ts.nodeOf P parent)), c))
         | None => Some (Err TypeError)
         end
    else Some (Ok (createReferenceType c (ts.Node.symbol (ts.nodeOf P m)), c)).
Proof.
  intros Hpre Hm. rewrite scan_skip by exact Hpre. simpl.
  rewrite onStack_true by exact Hm. rewrite isLiteralKind_eqb. reflexivity.
Qed.

(** C1.  When some declaration of the symbol is on the visit stack, there is
    a first such declaration [m] in the symbol's declaration order, and
    [convert] returns at once, whatever the walker would do: the result is the
    Reference Type Node of Reference Resolution for the symbol of [m]'s parent
    when [m] is a type literal or an object literal expression, and for [m]'s
    own symbol otherwise, and the context is left as it was. *)
Theorem convert_on_stack_returns_reference (P : ts.Program) (c : Context.t)
  (symbol : ts.SymbolId) (node : option ts.NodeId) (d : ts.NodeId)
  (Hd : In d (ts.Symbol.declarations (ts.symbolOf P symbol)))
  (Hstack : In d (Context.visitStack c)) :
  exists pre m post,
    ts.Symbol.declarations (ts.symbolOf P symbol) = pre ++ m :: post
    /\ (forall x, In x pre -> ~ In x (Context.visitStack c))
    /\ In m (Context.visitStack c)
    /\ forall s,
        (isLiteralKind (ts.Node.kind (ts.nodeOf P m)) = true
         /\ exists parent, ts.Node.parent (ts.nodeOf P m) = Some parent
                           /\ ts.Node.symbol (ts.nodeOf P parent) = Some s)
        \/ (isLiteralKind (ts.Node.kind (ts.nodeOf P m)) = false
            /\ ts.Node.symbol (ts.nodeOf P m) = Some s) ->
        forall walker,
          ReferenceConverter.convert P walker symbol node c
          = Ok (createReferenceType c (Some s), c)
          /\ isReferenceType (createReferenceType c (Some s)) = true
          /\ targetsSymbol c (createReferenceType c (Some s)) s.
Proof.
  destruct (first_on_stack _ _ _ Hd Hstack) as (pre & m & post & E & Hpre & Hm).
  exists pre, m, post. split; [exact E|split; [exact Hpre|split; [exact Hm|]]].
  intros s Htarget walker.
  destruct (createReferenceType_targets c s) as [Ht Hr].
  split; [|split; assumption].
  unfold ReferenceConverter.convert. rewrite E.
  rewrite scan_matched by assumption.
  destruct Htarget as [(Hk & parent & Hp & Hs)|(Hk & Hs)]; rewrite Hk.
  - rewrite Hp, Hs. reflexivity.
  - rewrite Hs. reflexivity.
Qed.

(** C10.  On the cycle-detected path [convert] changes nothing: whenever it
    returns, the context it leaves is the one it was given (registry, model
    and notifications included), whatever the walker; and it does return when
    the literal declarations of the symbol have a parent. *)
Theorem convert_on_stack_frame (P : ts.Program) (c : Context.t)
  (symbol : ts.SymbolId) (node : option ts.NodeId) (d : ts.NodeId)
  (Hd : In d (ts.Symbol.declarations (ts.symbolOf P symbol)))
  (Hstack : In d (Context.visitStack c)) :
  (forall walker t c',
      ReferenceConverter.convert P walker symbol node c = Ok (t, c') ->
      c' = c /\ isReferenceType t = true)
  /\ ((forall x, In x (ts.Symbol.declarations (ts.symbolOf P symbol)) ->
                 isLiteralKind (ts.Node.kind (ts.nodeOf P x)) = true ->
                 ts.Node.parent (ts.nodeOf P x) <> None) ->
      exists t, forall walker,
          ReferenceConverter.convert P walker symbol node c = Ok (t, c)).
Proof.
  destruct (first_on_stack _ _ _ Hd Hstack) as (pre & m & post & E & Hpre & Hm).
  split.
  - intros walker t c' H. unfold ReferenceConverter.convert in H.
    rewrite E, scan_matched in H by assumption.
    destruct (isLiteralKind _); [destruct (ts.Node.parent _)|];
      try discriminate; inversion H; subst; split; try reflexivity;
      unfold createReferenceType;
      repeat match goal with |- context [match ?x with _ => _ end] =>
                               destruct x end; reflexivity.
  - intros Hwf. unfold ReferenceConverter.convert.
    rewrite E, scan_matched by assumption.
    destruct (isLiteralKind _) eqn:Hk.
    + destruct (ts.Node.parent (ts.nodeOf P m)) as [parent|] eqn:Hp.
      * eexists. intros walker. reflexivity.
      * exfalso. apply (Hwf m); [rewrite E; apply in_elt|exact Hk|exact Hp].
    + eexists. intros walker. reflexivity.
Qed.

(* ================================================================== *)
(** ** The branches of [convertNode] and [convertType] *)

Lemma isLiteralSymbol_iff P s :
  ReferenceConverter.isLiteralSymbol P s = true
  <-> carriesFlag (ts.Symbol.flags (ts.symbolOf P s)) (ts.SymbolFlags_TypeLiteral P)
      \/ carriesFlag (ts.Symbol.flags (ts.symbolOf P s)) (ts.SymbolFlags_ObjectLiteral P).
Proof.
  unfold ReferenceConverter.isLiteralSymbol.
  rewrite orb_true_iff, !truthy_bitand_iff. reflexivity.
Qed.

(** The no-cycle path of [convert], with the state written out. *)
Lemma convert_fresh P walker c symbol node :
  noneOnStack P c symbol ->
  ReferenceConverter.convert P walker symbol node c
  = match forEach walker (ts.Symbol.declarations (ts.symbolOf P symbol))
            (contextForChildren c symbol node) with
    | Ok (_, c2) => Ok (ReflectionType (List.length (Context.reflections c)),
                        setScope (Context.scope c) c2)
    | Err e => Err e
    end.
Proof.
  intros H. unfold ReferenceConverter.convert.
  rewrite scan_none by exact H.
  unfold bind, new, registerReflection, trigger, withScope, ret; simpl.
  unfold contextForChildren, setScope, typeLiteralReflection; simpl.
  destruct (forEach _ _ _) as [[u c2]|e]; reflexivity.
Qed.

(** C4 (as amended).  A type that has no symbol converts to the intrinsic
    [Object] placeholder, by node and by type, without raising and without
    touching the context.  (The test is on the presence of the symbol, not on
    its declarations.) *)
Theorem ownerless_type_is_Object (P : ts.Program) (walker : ts.NodeId -> M unit)
  (registry : TypeArg -> M Ty) (node : ts.TypeReferenceNode.t)
  (type : ts.TypeReference.t) (c : Context.t)
  (Hsymbol : ts.TypeReference.symbol type = None) :
  ReferenceConverter.convertNode P walker registry node type c
  = Ok (IntrinsicType "Object", c)
  /\ ReferenceConverter.convertType P walker registry type c
     = Ok (IntrinsicType "Object", c).
Proof.
  unfold ReferenceConverter.convertNode, ReferenceConverter.convertType.
  rewrite Hsymbol. split; reflexivity.
Qed.

(** C5 (as amended).  A type whose symbol carries the type-literal or the
    object-literal flag is handed to [convert], by node (with the node) and by
    type (without one); unless a declaration of the symbol is on the visit
    stack, what comes back is the ReflectionType of the new synthetic node and
    not a Reference Type Node. *)
Theorem literal_symbol_delegates (P : ts.Program) (walker : ts.NodeId -> M unit)
  (registry : TypeArg -> M Ty) (node : ts.TypeReferenceNode.t)
  (type : ts.TypeReference.t) (c : Context.t) (s : ts.SymbolId)
  (Hsymbol : ts.TypeReference.symbol type = Some s)
  (Hflag : carriesFlag (ts.Symbol.flags (ts.symbolOf P s))
                       (ts.SymbolFlags_TypeLiteral P)
           \/ carriesFlag (ts.Symbol.flags (ts.symbolOf P s))
                          (ts.SymbolFlags_ObjectLiteral P)) :
  ReferenceConverter.convertNode P walker registry node type c
  = ReferenceConverter.convert P walker s (Some (ts.TypeReferenceNode.id node)) c
  /\ ReferenceConverter.convertType P walker registry type c
     = ReferenceConverter.convert P walker s None c
  /\ (noneOnStack P c s ->
      forall n t c',
        ReferenceConverter.convert P walker s n c = Ok (t, c') ->
        t = ReflectionType (List.length (Context.reflections c))
        /\ isReferenceType t = false).
Proof.
  apply isLiteralSymbol_iff in Hflag.
  unfold ReferenceConverter.convertNode, ReferenceConverter.convertType.
  rewrite Hsymbol, Hflag. split; [reflexivity|split; [reflexivity|]].
  intros Hnone n t c' H. rewrite convert_fresh in H by exact Hnone.
  destruct (forEach _ _ _) as [[u c2]|e]; [|discriminate].
  inversion H; subst. split; reflexivity.
Qed.

Lemma mapM_map {A} (registry : TypeArg -> M Ty) (f : A -> TypeArg) xs c :
  mapM (fun x => registry (f x)) xs c = mapM registry (map f xs) c.
Proof.
  revert c. induction xs as [|x xs IH]; intros c; simpl; [reflexivity|].
  unfold bind. destruct (registry (f x) c) as [[t c1]|e]; [|reflexivity].
  rewrite IH. reflexivity.
Qed.

Lemma mapM_in_order registry xs c ts c' :
  mapM registry xs c = Ok (ts, c') <-> convertedInOrder registry xs c ts c'.
Proof.
  revert c ts c'. induction xs as [|x xs IH]; intros c ts c'; simpl.
  - unfold ret. split.
    + intros H. inversion H; subst. constructor.
    + intros H. inversion H; subst. reflexivity.
  - unfold bind. split.
    + intros H. destruct (registry x c) as [[t c1]|e] eqn:E; [|discriminate].
      destruct (mapM registry xs c1) as [[ts' c2]|e] eqn:E'; [|discriminate].
      unfold ret in H. inversion H; subst.
      econstructor; [exact E|]. apply IH. exact E'.
    + intros H. inversion H; subst.
      match goal with Hx : registry x c = _ |- _ => rewrite Hx end.
      match goal with Hr : convertedInOrder _ xs _ _ _ |- _ =>
                        apply IH in Hr; rewrite Hr end.
      reflexivity.
Qed.

Lemma named_reference_result registry target args c r c' :
  (ts <- mapM registry args ;; ret (setTypeArguments (ReferenceType target None) ts)) c
  = Ok (r, c')
  <-> exists ts, r = ReferenceType target (Some ts)
                 /\ convertedInOrder registry args c ts c'.
Proof.
  unfold bind, ret. split.
  - intros H. destruct (mapM registry args c) as [[ts c1]|e] eqn:E; [|discriminate].
    inversion H; subst. exists ts. split; [reflexivity|].
    apply mapM_in_order. exact E.
  - intros (ts & -> & H). apply mapM_in_order in H. rewrite H. reflexivity.
Qed.

(** C6.  For a type whose symbol is present and carries neither literal flag,
    the result is the Reference Type Node Reference Resolution gives for the
    symbol (looked up in the context as it is on entry).  Without explicit
    type arguments it is returned as it is; with type arguments, each is
    converted through [convertType] of the registry, one after the other from
    left to right, and the results become the node's type arguments in that
    order: syntax arguments for [convertNode], resolved arguments for
    [convertType]. *)
Theorem named_reference_with_arguments (P : ts.Program)
  (walker : ts.NodeId -> M unit) (registry : TypeArg -> M Ty)
  (node : ts.TypeReferenceNode.t) (type : ts.TypeReference.t) (c : Context.t)
  (s : ts.SymbolId)
  (Hsymbol : ts.TypeReference.symbol type = Some s)
  (Hnot1 : ~ carriesFlag (ts.Symbol.flags (ts.symbolOf P s))
                         (ts.SymbolFlags_TypeLiteral P))
  (Hnot2 : ~ carriesFlag (ts.Symbol.flags (ts.symbolOf P s))
                         (ts.SymbolFlags_ObjectLiteral P)) :
  exists target,
    createReferenceType c (Some s) = ReferenceType target None
    /\ targetsSymbol c (ReferenceType target None) s
    /\ match ts.TypeReferenceNode.typeArguments node with
       | None => ReferenceConverter.convertNode P walker registry node type c
                 = Ok (ReferenceType target None, c)
       | Some args =>
           forall r c',
             ReferenceConverter.convertNode P walker registry node type c
             = Ok (r, c')
             <-> exists ts, r = ReferenceType target (Some ts)
                            /\ convertedInOrder registry (map ofNode args) c ts c'
       end
    /\ match ts.TypeReference.typeArguments type with
       | None => ReferenceConverter.convertType P walker registry type c
                 = Ok (ReferenceType target None, c)
       | Some args =>
           forall r c',
             ReferenceConverter.convertType P walker registry type c
             = Ok (r, c')
             <-> exists ts, r = ReferenceType target (Some ts)
                            /\ convertedInOrder registry (map ofType args) c ts c'
       end.
Proof.
  assert (Hlit : ReferenceConverter.isLiteralSymbol P s = false).
  { destruct (ReferenceConverter.isLiteralSymbol P s) eqn:E; [|reflexivity].
    apply isLiteralSymbol_iff in E. tauto. }
  destruct (createReferenceType_targets c s) as [Ht _].
  assert (Hc : exists target, createReferenceType c (Some s) = ReferenceType target None).
  { unfold createReferenceType. destruct (lookup _ _); eexists; reflexivity. }
  destruct Hc as [target Hc]. exists target. rewrite Hc in Ht.
  split; [exact Hc|split; [exact Ht|]].
  unfold ReferenceConverter.convertNode, ReferenceConverter.convertType.
  rewrite Hsymbol, Hlit, Hc. split.
  - destruct (ts.TypeReferenceNode.typeArguments node) as [args|]; [|reflexivity].
    intros r c'. rewrite <- named_reference_result.
    unfold bind. rewrite mapM_map. reflexivity.
  - destruct (ts.TypeReference.typeArguments type) as [args|]; [|reflexivity].
    intros r c'. rewrite <- named_reference_result.
    unfold bind. rewrite mapM_map. reflexivity.
Qed.

(* ================================================================== *)
(** ** The no-cycle path of [convert] *)

Lemma forEach_preserves {A} (f : A -> M unit) (I : Context.t -> Context.t -> Prop) xs :
  (forall c, I c c) ->
  (forall a b c, I a b -> I b c -> I a c) ->
  (forall x, In x xs -> forall c u c', f x c = Ok (u, c') -> I c c') ->
  forall c u c', forEach f xs c = Ok (u, c') -> I c c'.
Proof.
  intros Hrefl Htrans. induction xs as [|x xs IH]; simpl; intros Hf c u c' H.
  - unfold ret in H. inversion H; subst. apply Hrefl.
  - unfold bind in H. destruct (f x c) as [[v c1]|e] eqn:E; [|discriminate].
    apply Htrans with c1; [exact (Hf x (or_introl eq_refl) _ _ _ E)|].
    apply (IH (fun y Hy => Hf y (or_intror Hy)) _ _ _ H).
Qed.

(** C3 (as amended).  When no declaration of the symbol is on the visit
    stack, [convert] creates a synthetic Declaration Node of kind type literal
    named [__type] under the current scope, registers it for the symbol, and
    then converts the declarations of the symbol in order with that node as
    scope, from a context whose visit stack is the one [convert] was entered
    with: [convert] itself pushes nothing.  It restores the scope and returns
    the node wrapped in a ReflectionType; the visit stack is back to what it
    was whenever the walker leaves it as it finds it. *)
Theorem convert_fresh_steps (P : ts.Program) (walker : ts.NodeId -> M unit)
  (c : Context.t) (symbol : ts.SymbolId) (node : option ts.NodeId)
  (Hnone : noneOnStack P c symbol) :
  let id := List.length (Context.reflections c) in
  let c1 := contextForChildren c symbol node in
  nth_error (Context.reflections c1) id
  = Some (DeclarationReflection.mk ReflectionKind.TypeLiteral "__type"
            (Context.scope c) [] None)
  /\ lookup (Context.registry c1) symbol = Some id
  /\ Context.visitStack c1 = Context.visitStack c
  /\ Context.scope c1 = Some id
  /\ ReferenceConverter.convert P walker symbol node c
     = match forEach walker (ts.Symbol.declarations (ts.symbolOf P symbol)) c1 with
       | Ok (_, c2) => Ok (ReflectionType id, setScope (Context.scope c) c2)
       | Err e => Err e
       end
  /\ (forall t c',
         ReferenceConverter.convert P walker symbol node c = Ok (t, c') ->
         t = ReflectionType id
         /\ Context.scope c' = Context.scope c
         /\ ((forall d a u b, walker d a = Ok (u, b) ->
                              Context.visitStack b = Context.visitStack a) ->
             Context.visitStack c' = Context.visitStack c)).
Proof.
  intros id c1. subst id c1.
  split; [|split; [|split; [|split; [|split]]]].
  - unfold contextForChildren; simpl.
    rewrite nth_error_app2 by lia. rewrite Nat.sub_diag. reflexivity.
  - unfold contextForChildren; simpl. rewrite Nat.eqb_refl. reflexivity.
  - reflexivity.
  - reflexivity.
  - apply convert_fresh. exact Hnone.
  - intros t c' H. rewrite convert_fresh in H by exact Hnone.
    destruct (forEach _ _ _) as [[u c2]|e] eqn:E; [|discriminate].
    inversion H; subst. split; [reflexivity|split; [reflexivity|]].
    intros Hw. simpl.
    apply (forEach_preserves walker
             (fun a b => Context.visitStack b = Context.visitStack a)) in E;
      [exact E|reflexivity|intros; congruence|intros x _; exact (Hw x)].
Qed.

Lemma countCreated_app id xs ys :
  countCreated id (xs ++ ys) = (countCreated id xs + countCreated id ys)%nat.
Proof.
  induction xs as [|[d n] xs IH]; simpl; [reflexivity|]. rewrite IH. lia.
Qed.

(** C7.  When [convert] creates its Declaration Node it fires one creation
    notification, carrying the node and the syntax node it was given (none
    when called by type), and the declarations of the symbol are converted
    only from the context that already holds that notification.  [convert]
    fires nothing else: the notifications it leaves are those the walker left;
    so the node has been notified exactly once as long as the walker notifies
    nothing for it. *)
Theorem convert_fresh_notifies_once (P : ts.Program)
  (walker : ts.NodeId -> M unit) (c : Context.t) (symbol : ts.SymbolId)
  (node : option ts.NodeId)
  (Hnone : noneOnStack P c symbol) :
  let id := List.length (Context.reflections c) in
  let c1 := contextForChildren c symbol node in
  Context.events c1 = Context.events c ++ [EVENT_CREATE_DECLARATION id node]
  /\ countCreated id (Context.events c1) = S (countCreated id (Context.events c))
  /\ ReferenceConverter.convert P walker symbol node c
     = match forEach walker (ts.Symbol.declarations (ts.symbolOf P symbol)) c1 with
       | Ok (_, c2) => Ok (ReflectionType id, setScope (Context.scope c) c2)
       | Err e => Err e
       end
  /\ (forall t c',
         ReferenceConverter.convert P walker symbol node c = Ok (t, c') ->
         exists c2,
           forEach walker (ts.Symbol.declarations (ts.symbolOf P symbol)) c1
           = Ok (tt, c2)
           /\ Context.events c' = Context.events c2
           /\ ((forall d a u b, walker d a = Ok (u, b) ->
                                countCreated id (Context.events b)
                                = countCreated id (Context.events a)) ->
               countCreated id (Context.events c')
               = S (countCreated id (Context.events c)))).
Proof.
  intros id c1.
  assert (Hcount : countCreated id (Context.events c1)
                   = S (countCreated id (Context.events c))).
  { subst id c1. unfold contextForChildren; simpl.
    rewrite countCreated_app. simpl. rewrite Nat.eqb_refl. lia. }
  split; [reflexivity|split; [exact Hcount|split]].
  - apply convert_fresh. exact Hnone.
  - intros t c' H. rewrite convert_fresh in H by exact Hnone. fold c1 in H.
    destruct (forEach _ _ c1) as [[[] c2]|e] eqn:E; [|discriminate].
    inversion H; subst t c'. exists c2.
    split; [reflexivity|split; [reflexivity|]].
    intros Hw. simpl. rewrite <- Hcount.
    apply (forEach_preserves walker
             (fun a b => countCreated id (Context.events b)
                         = countCreated id (Context.events a))) in E;
      [exact E|reflexivity|intros; congruence|intros x _; exact (Hw x)].
Qed.

(* ================================================================== *)
(** ** Termination of the engine *)

Lemma engine_walk P dt f d c :
  Engine.node_convertNode P dt (S f) d c
  = Engine.walk P (Engine.type_convertType P dt f) d c.
Proof. reflexivity. Qed.

Lemma engine_dispatch P dt f a c :
  Engine.type_convertType P dt (S f) a c
  = Engine.dispatch P dt (Engine.node_convertNode P dt f)
      (Engine.type_convertType P dt f) a c.
Proof. reflexivity. Qed.

Lemma onStack_In stack d : onStack stack d = true <-> In d stack.
Proof.
  unfold onStack. rewrite existsb_exists. split.
  - intros (x & Hx & E). apply Nat.eqb_eq in E. subst. exact Hx.
  - intros H. exists d. split; [exact H|apply Nat.eqb_refl].
Qed.

Lemma filter_length_lt {A} (p q : A -> bool) (xs : list A) (d : A) :
  (forall x, q x = true -> p x = true) ->
  In d xs -> p d = true -> q d = false ->
  (List.length (filter q xs) < List.length (filter p xs))%nat.
Proof.
  intros Hqp. induction xs as [|x xs IH]; intros Hd Hp Hq; [destruct Hd|].
  assert (Hle : (List.length (filter q xs) <= List.length (filter p xs))%nat).
  { clear -Hqp. induction xs as [|y ys IH]; simpl; [lia|].
    destruct (q y) eqn:Eq.
    - rewrite (Hqp _ Eq). simpl. lia.
    - destruct (p y); simpl; lia. }
  simpl. destruct Hd as [->|Hd].
  - rewrite Hp, Hq. simpl. lia.
  - specialize (IH Hd Hp Hq). destruct (q x) eqn:Eq.
    + rewrite (Hqp _ Eq). simpl. lia.
    + destruct (p x); simpl; lia.
Qed.

Lemma remaining_push U stack d :
  In d U -> ~ In d stack ->
  (S (remaining U (stack ++ [d])) <= remaining U stack)%nat.
Proof.
  intros HU Hd. unfold remaining.
  apply (filter_length_lt
           (fun x => negb (onStack stack x))
           (fun x => negb (onStack (stack ++ [d]) x)) U d).
  - intros x Hx. apply negb_true_iff in Hx. apply negb_true_iff.
    destruct (onStack stack x) eqn:E; [|reflexivity].
    apply onStack_In in E.
    assert (Hin : In x (stack ++ [d])) by (apply in_or_app; left; exact E).
    apply onStack_In in Hin. congruence.
  - exact HU.
  - apply negb_true_iff. destruct (onStack _ d) eqn:E; [|reflexivity].
    apply onStack_In in E. contradiction.
  - apply negb_false_iff. apply onStack_In. apply in_or_app. right. left. reflexivity.
Qed.

Lemma remaining_le U stack : (remaining U stack <= List.length U)%nat.
Proof. unfold remaining. apply filter_length_le. Qed.

Lemma list_max_In (xs : list nat) x : In x xs -> (x <= list_max xs)%nat.
Proof.
  intros H. pose proof (proj1 (list_max_le xs (list_max xs)) (Nat.le_refl _)) as F.
  rewrite Forall_forall in F. exact (F x H).
Qed.

Lemma nodeHeight_pos n : (1 <= nodeHeight n)%nat.
Proof. destruct n as [i [args|]]; simpl; lia. Qed.

Lemma typeHeight_pos t : (1 <= typeHeight t)%nat.
Proof. destruct t as [f s [args|]]; simpl; lia. Qed.

Lemma argHeight_pos a : (1 <= argHeight a)%nat.
Proof. destruct a; [apply nodeHeight_pos|apply typeHeight_pos]. Qed.

Lemma keeps_ret {A} s (a : A) : keepsStack s (ret a).
Proof. intros c Hc. exists a, c. split; [reflexivity|exact Hc]. Qed.

Lemma keeps_bind {A B} s (m : M A) (k : A -> M B) :
  keepsStack s m -> (forall a, keepsStack s (k a)) -> keepsStack s (bind m k).
Proof.
  intros Hm Hk c Hc. destruct (Hm c Hc) as (a & c1 & E & Hc1).
  destruct (Hk a c1 Hc1) as (b & c2 & E2 & Hc2).
  exists b, c2. unfold bind. rewrite E. split; [exact E2|exact Hc2].
Qed.

Lemma keeps_new s d : keepsStack s (new d).
Proof. intros c Hc. eexists _, _. split; [reflexivity|exact Hc]. Qed.

Lemma keeps_trigger s e : keepsStack s (trigger e).
Proof. intros c Hc. eexists _, _. split; [reflexivity|exact Hc]. Qed.

Lemma keeps_addChild s scope child : keepsStack s (addChild scope child).
Proof.
  intros c Hc. unfold addChild. destruct scope;
    eexists _, _; (split; [reflexivity|exact Hc]).
Qed.

Lemma keeps_setType s r t : keepsStack s (setType r t).
Proof. intros c Hc. eexists _, _. split; [reflexivity|exact Hc]. Qed.

Lemma keeps_withScope {A} s scope (m : M A) :
  keepsStack s m -> keepsStack s (withScope scope m).
Proof.
  intros Hm c Hc. unfold withScope.
  destruct (Hm (setScope (Some scope) c) Hc) as (a & c1 & E & Hc1).
  rewrite E. eexists _, _. split; [reflexivity|exact Hc1].
Qed.

Lemma keeps_forEach {A} s (f : A -> M unit) xs :
  (forall x, In x xs -> keepsStack s (f x)) -> keepsStack s (forEach f xs).
Proof.
  induction xs as [|x xs IH]; intros Hf; simpl.
  - apply keeps_ret.
  - apply keeps_bind; [apply Hf; left; reflexivity|].
    intros _. apply IH. intros y Hy. apply Hf. right; exact Hy.
Qed.

Lemma keeps_mapM {A} s (f : A -> M Ty) xs :
  (forall x, In x xs -> keepsStack s (f x)) -> keepsStack s (mapM f xs).
Proof.
  induction xs as [|x xs IH]; intros Hf; simpl.
  - apply keeps_ret.
  - apply keeps_bind; [apply Hf; left; reflexivity|].
    intros t. apply keeps_bind.
    + apply IH. intros y Hy. apply Hf. right; exact Hy.
    + intros ts. apply keeps_ret.
Qed.

Lemma keeps_convertMember s registry m :
  keepsStack s (registry (ofNode (ts.Member.type m))) ->
  keepsStack s (Engine.convertMember registry m).
Proof.
  intros Hr c Hc. unfold Engine.convertMember.
  refine (keeps_bind s _ _ (keeps_new s _) _ c Hc). intros child.
  apply keeps_bind; [apply keeps_trigger|]. intros _.
  apply keeps_bind; [apply keeps_addChild|]. intros _.
  apply keeps_bind; [apply keeps_withScope; exact Hr|]. intros t.
  apply keeps_setType.
Qed.

Lemma any_on_stack (stack decls : list nat) :
  (exists d, In d decls /\ In d stack) \/ (forall d, In d decls -> ~ In d stack).
Proof.
  induction decls as [|x xs [(d & Hd & Hs)|Hnone]].
  - right. intros d [].
  - left. exists d. split; [right; exact Hd|exact Hs].
  - destruct (in_dec Nat.eq_dec x stack) as [Hx|Hx].
    + left. exists x. split; [left; reflexivity|exact Hx].
    + right. intros d [<-|Hd]; [exact Hx|exact (Hnone d Hd)].
Qed.

Section Termination.

Local Open Scope nat_scope.

Variable P : ts.Program.
Variable defaultType : ts.TypeReference.t -> Ty.

(** The declarations of the program, and a bound on the nesting of the
    type arguments written in their members. *)
Variable U : list ts.NodeId.
Variable H : nat.

Hypothesis declarations_in_U :
  forall s d, In d (ts.Symbol.declarations (ts.symbolOf P s)) -> In d U.
Hypothesis members_below_H :
  forall d m, In d U -> In m (ts.membersOf P d) ->
              nodeHeight (ts.Member.type m) <= H.
Hypothesis literals_have_parent :
  forall d, In d U -> isLiteralKind (ts.Node.kind (ts.nodeOf P d)) = true ->
            ts.Node.parent (ts.nodeOf P d) <> None.

Lemma keeps_convert walker s symbol node :
  (forall d, In d (ts.Symbol.declarations (ts.symbolOf P symbol)) ->
             ~ In d s -> keepsStack s (walker d)) ->
  keepsStack s (ReferenceConverter.convert P walker symbol node).
Proof.
  intros Hw c Hc.
  destruct (any_on_stack s (ts.Symbol.declarations (ts.symbolOf P symbol)))
    as [(d & Hd & Hs)|Hnone].
  - destruct (first_on_stack _ _ _ Hd Hs) as (pre & m & post & E & Hpre & Hm).
    unfold ReferenceConverter.convert. rewrite E.
    rewrite scan_matched by (rewrite Hc; assumption).
    destruct (isLiteralKind _) eqn:Hk.
    + destruct (ts.Node.parent (ts.nodeOf P m)) as [parent|] eqn:Hp.
      * eexists _, _. split; [reflexivity|exact Hc].
      * exfalso. apply (literals_have_parent m); [|exact Hk|exact Hp].
        apply (declarations_in_U symbol). rewrite E. apply in_elt.
    + eexists _, _. split; [reflexivity|exact Hc].
  - rewrite convert_fresh by (intros d Hd; rewrite Hc; exact (Hnone d Hd)).
    destruct (keeps_forEach s walker
                (ts.Symbol.declarations (ts.symbolOf P symbol))
                (fun d Hd => Hw d Hd (Hnone d Hd))
                (contextForChildren c symbol node) Hc) as (u & c2 & E & Hc2).
    rewrite E. eexists _, _. split; [reflexivity|exact Hc2].
Qed.

Lemma keeps_convertNode walker registry s node type :
  (forall symbol d, In d (ts.Symbol.declarations (ts.symbolOf P symbol)) ->
                    ~ In d s -> keepsStack s (walker d)) ->
  (forall args n, ts.TypeReferenceNode.typeArguments node = Some args ->
                  In n args -> keepsStack s (registry (ofNode n))) ->
  keepsStack s (ReferenceConverter.convertNode P walker registry node type).
Proof.
  intros Hw Hr c Hc. unfold ReferenceConverter.convertNode.
  destruct (ts.TypeReference.symbol type) as [symbol|].
  - destruct (ReferenceConverter.isLiteralSymbol P symbol).
    + apply keeps_convert; [exact (Hw symbol)|exact Hc].
    + destruct (ts.TypeReferenceNode.typeArguments node) as [args|] eqn:Ea.
      * refine (keeps_bind s _ _ _ _ c Hc).
        -- apply keeps_mapM. intros n Hn. exact (Hr args n eq_refl Hn).
        -- intros ts. apply keeps_ret.
      * eexists _, _. split; [reflexivity|exact Hc].
  - eexists _, _. split; [reflexivity|exact Hc].
Qed.

Lemma keeps_convertType walker registry s type :
  (forall symbol d, In d (ts.Symbol.declarations (ts.symbolOf P symbol)) ->
                    ~ In d s -> keepsStack s (walker d)) ->
  (forall args t, ts.TypeReference.typeArguments type = Some args ->
                  In t args -> keepsStack s (registry (ofType t))) ->
  keepsStack s (ReferenceConverter.convertType P walker registry type).
Proof.
  intros Hw Hr c Hc. unfold ReferenceConverter.convertType.
  destruct (ts.TypeReference.symbol type) as [symbol|].
  - destruct (ReferenceConverter.isLiteralSymbol P symbol).
    + apply keeps_convert; [exact (Hw symbol)|exact Hc].
    + destruct (ts.TypeReference.typeArguments type) as [args|] eqn:Ea.
      * refine (keeps_bind s _ _ _ _ c Hc).
        -- apply keeps_mapM. intros t Ht. exact (Hr args t eq_refl Ht).
        -- intros ts. apply keeps_ret.
      * eexists _, _. split; [reflexivity|exact Hc].
  - eexists _, _. split; [reflexivity|exact Hc].
Qed.

Lemma keeps_walk registry s d :
  (forall m, In m (ts.membersOf P d) ->
             keepsStack (s ++ [d]) (registry (ofNode (ts.Member.type m)))) ->
  keepsStack s (Engine.walk P registry d).
Proof.
  intros Hr c Hc. unfold Engine.walk.
  destruct (keeps_forEach (s ++ [d]) (Engine.convertMember registry)
              (ts.membersOf P d)
              (fun m Hm => keeps_convertMember (s ++ [d]) registry m (Hr m Hm))
              (setVisitStack (Context.visitStack c ++ [d]) c))
    as ([] & c1 & E & Hc1); [simpl; rewrite Hc; reflexivity|].
  rewrite E. eexists _, _. split; [reflexivity|simpl; exact Hc].
Qed.

(** With fuel for the declarations not yet on the visit stack and for the
    nesting of the type arguments at hand, the registry and the walker
    return. *)
Lemma engine_returns fuel :
  (forall a s, remaining U s * (H + 1) + argHeight a <= fuel ->
               keepsStack s (Engine.type_convertType P defaultType fuel a))
  /\ (forall d s, In d U -> ~ In d s -> remaining U s * (H + 1) <= fuel ->
                  keepsStack s (Engine.node_convertNode P defaultType fuel d)).
Proof.
  induction fuel as [|f [IHa IHd]].
  - split.
    + intros a s Hf. pose proof (argHeight_pos a). lia.
    + intros d s Hd Hs Hf. pose proof (remaining_push U s d Hd Hs). nia.
  - split.
    + intros a s Hf c Hc. rewrite engine_dispatch. unfold Engine.dispatch.
      pose proof (argHeight_pos a) as Hpos.
      assert (Hw : forall symbol d,
                 In d (ts.Symbol.declarations (ts.symbolOf P symbol)) ->
                 ~ In d s ->
                 keepsStack s (Engine.node_convertNode P defaultType f d)).
      { intros symbol d Hd Hs. apply IHd;
          [exact (declarations_in_U symbol d Hd)|exact Hs|lia]. }
      destruct a as [n|t].
      * destruct (ReferenceConverter.supportsNode _ _ _ _).
        -- apply keeps_convertNode; [exact Hw| |exact Hc].
           intros args n' Ea Hn. apply IHa. simpl.
           destruct n as [i targs]. simpl in Ea. subst targs. simpl in Hf.
           pose proof (list_max_In (map nodeHeight args) (nodeHeight n')
                         (in_map nodeHeight args n' Hn)). lia.
        -- eexists _, _. split; [reflexivity|exact Hc].
      * destruct (ReferenceConverter.supportsType _ _ _).
        -- apply keeps_convertType; [exact Hw| |exact Hc].
           intros args t' Ea Ht. apply IHa. simpl.
           destruct t as [fl sy targs]. simpl in Ea. subst targs. simpl in Hf.
           pose proof (list_max_In (map typeHeight args) (typeHeight t')
                         (in_map typeHeight args t' Ht)). lia.
        -- eexists _, _. split; [reflexivity|exact Hc].
    + intros d s Hd Hs Hf c Hc. rewrite engine_walk.
      apply keeps_walk; [|exact Hc].
      intros m Hm. apply IHa. simpl.
      pose proof (remaining_push U s d Hd Hs).
      pose proof (members_below_H d m Hd Hm). nia.
Qed.

End Termination.

(* ================================================================== *)
(** ** One synthetic node per symbol in progress *)

(** The cycle path of [convert], with the matched declaration known. *)
Lemma convert_on_stack P c symbol node pre m post walker :
  ts.Symbol.declarations (ts.symbolOf P symbol) = pre ++ m :: post ->
  (forall x, In x pre -> ~ In x (Context.visitStack c)) ->
  In m (Context.visitStack c) ->
  (isLiteralKind (ts.Node.kind (ts.nodeOf P m)) = true ->
   ts.Node.parent (ts.nodeOf P m) <> None) ->
  ReferenceConverter.convert P walker symbol node c
  = Ok (createReferenceType c (selfReferenceTarget P m), c).
Proof.
  intros E Hpre Hm Hwf. unfold ReferenceConverter.convert. rewrite E.
  rewrite scan_matched by assumption. unfold selfReferenceTarget.
  destruct (isLiteralKind _); [|reflexivity].
  destruct (ts.Node.parent (ts.nodeOf P m)); [reflexivity|].
  exfalso. apply Hwf; reflexivity.
Qed.

Lemma convert_on_stack_same P c symbol node walker d t c' :
  In d (ts.Symbol.declarations (ts.symbolOf P symbol)) ->
  In d (Context.visitStack c) ->
  ReferenceConverter.convert P walker symbol node c = Ok (t, c') -> c' = c.
Proof.
  intros Hd Hs H.
  destruct (first_on_stack _ _ _ Hd Hs) as (pre & m & post & E & Hpre & Hm).
  unfold ReferenceConverter.convert in H.
  rewrite E, scan_matched in H by assumption.
  destruct (isLiteralKind _); [destruct (ts.Node.parent _)|];
    try discriminate; inversion H; reflexivity.
Qed.

Section Quiet.

Variable P : ts.Program.
Variable defaultType : ts.TypeReference.t -> Ty.
Variable s : ts.SymbolId.

Lemma quiet_refl c : quiet P s c c.
Proof. split; reflexivity. Qed.

Lemma quiet_trans a b c : quiet P s a b -> quiet P s b c -> quiet P s a c.
Proof.
  intros [Hs1 Hr1] [Hs2 Hr2]. split; [congruence|].
  intros Hd. rewrite Hr2, Hr1; [reflexivity|exact Hd|].
  rewrite Hs1. exact Hd.
Qed.

Lemma quiet_same c c' :
  Context.visitStack c' = Context.visitStack c ->
  Context.registry c' = Context.registry c -> quiet P s c c'.
Proof.
  intros Hs Hr. split; [exact Hs|]. intros _. unfold registrations.
  rewrite Hr. reflexivity.
Qed.

Lemma quiet_ext a a' b b' :
  Context.visitStack a' = Context.visitStack a ->
  Context.registry a' = Context.registry a ->
  Context.visitStack b' = Context.visitStack b ->
  Context.registry b' = Context.registry b ->
  quiet P s a b -> quiet P s a' b'.
Proof.
  unfold quiet, quietFor, registrations.
  intros Hsa Hra Hsb Hrb [Hs Hr]. rewrite Hsa, Hra, Hsb, Hrb.
  split; assumption.
Qed.

Lemma respects_ret {A} (a : A) : respects (quiet P s) (ret a).
Proof. intros c x c' E. inversion E; subst. apply quiet_refl. Qed.

Lemma respects_bind {A B} (m : M A) (k : A -> M B) :
  respects (quiet P s) m -> (forall a, respects (quiet P s) (k a)) ->
  respects (quiet P s) (bind m k).
Proof.
  intros Hm Hk c b c' E. unfold bind in E.
  destruct (m c) as [[a c1]|e] eqn:Em; [|discriminate].
  apply quiet_trans with c1; [exact (Hm _ _ _ Em)|exact (Hk a _ _ _ E)].
Qed.

Lemma respects_new d : respects (quiet P s) (new d).
Proof. intros c a c' E. inversion E; subst. apply quiet_same; reflexivity. Qed.

Lemma respects_trigger e : respects (quiet P s) (trigger e).
Proof. intros c a c' E. inversion E; subst. apply quiet_same; reflexivity. Qed.

Lemma respects_addChild scope child : respects (quiet P s) (addChild scope child).
Proof.
  intros c a c' E. unfold addChild in E.
  destruct scope; inversion E; subst; apply quiet_same; reflexivity.
Qed.

Lemma respects_setType r t : respects (quiet P s) (setType r t).
Proof. intros c a c' E. inversion E; subst. apply quiet_same; reflexivity. Qed.

Lemma respects_withScope {A} scope (m : M A) :
  respects (quiet P s) m -> respects (quiet P s) (withScope scope m).
Proof.
  intros Hm c a c' E. unfold withScope in E.
  destruct (m (setScope (Some scope) c)) as [[x c1]|e] eqn:Em; [|discriminate].
  inversion E; subst.
  apply (quiet_ext (setScope (Some scope) c) c c1 (setScope (Context.scope c) c1));
    try reflexivity.
  exact (Hm _ _ _ Em).
Qed.

Lemma respects_forEach {A} (f : A -> M unit) xs :
  (forall x, In x xs -> respects (quiet P s) (f x)) ->
  respects (quiet P s) (forEach f xs).
Proof.
  intros Hf c u c' E.
  apply (forEach_preserves f (quiet P s) xs quiet_refl quiet_trans) in E;
    [exact E|exact Hf].
Qed.

Lemma respects_mapM {A} (f : A -> M Ty) xs :
  (forall x, In x xs -> respects (quiet P s) (f x)) ->
  respects (quiet P s) (mapM f xs).
Proof.
  induction xs as [|x xs IH]; intros Hf; simpl.
  - apply respects_ret.
  - apply respects_bind; [apply Hf; left; reflexivity|].
    intros t. apply respects_bind.
    + apply IH. intros y Hy. apply Hf. right; exact Hy.
    + intros ts. apply respects_ret.
Qed.

Lemma respects_convertMember registry m :
  respects (quiet P s) (registry (ofNode (ts.Member.type m))) ->
  respects (quiet P s) (Engine.convertMember registry m).
Proof.
  intros Hr c a c' E. unfold Engine.convertMember in E.
  refine (respects_bind _ _ (respects_new _) _ c a c' E). intros child.
  apply respects_bind; [apply respects_trigger|]. intros _.
  apply respects_bind; [apply respects_addChild|]. intros _.
  apply respects_bind; [apply respects_withScope; exact Hr|]. intros t.
  apply respects_setType.
Qed.

(** The walker adds nothing for [s] when a declaration of [s] is on the
    stack or is the one being walked. *)
Lemma walk_quiet registry d :
  (forall m, In m (ts.membersOf P d) ->
             respects (quiet P s) (registry (ofNode (ts.Member.type m)))) ->
  respects (quietFor P s [d]) (Engine.walk P registry d).
Proof.
  intros Hr c u c' E. unfold Engine.walk in E.
  destruct (forEach _ _ _) as [[v c1]|e] eqn:Ef; [|discriminate].
  inversion E; subst.
  apply (respects_forEach (Engine.convertMember registry) (ts.membersOf P d)
           (fun m Hm => respects_convertMember registry m (Hr m Hm))) in Ef.
  destruct Ef as [Hs Hq]. simpl in Hs, Hq.
  split; [reflexivity|]. intros Hd. unfold registrations in *. simpl.
  rewrite app_nil_r in Hq. apply Hq. exact Hd.
Qed.

Lemma quietFor_weaken d c c' : quietFor P s [d] c c' -> quiet P s c c'.
Proof.
  intros [Hs Hq]. split; [exact Hs|]. intros (x & Hx & Hin). apply Hq.
  exists x. split; [exact Hx|]. rewrite app_nil_r in Hin.
  apply in_or_app. left. exact Hin.
Qed.

Lemma respects_convert walker symbol node :
  (forall d, respects (quiet P s) (walker d)) ->
  respects (quiet P s) (ReferenceConverter.convert P walker symbol node).
Proof.
  intros Hw c t c' E.
  destruct (any_on_stack (Context.visitStack c)
              (ts.Symbol.declarations (ts.symbolOf P symbol)))
    as [(d & Hd & Hs)|Hnone].
  - rewrite (convert_on_stack_same P c symbol node walker d t c' Hd Hs E).
    apply quiet_refl.
  - rewrite convert_fresh in E by exact Hnone.
    destruct (forEach _ _ _) as [[u c2]|e] eqn:Ef; [|discriminate].
    inversion E; subst.
    apply (respects_forEach walker _ (fun d _ => Hw d)) in Ef.
    apply (quiet_ext c c c2 (setScope (Context.scope c) c2)); try reflexivity.
    apply quiet_trans with (contextForChildren c symbol node); [|exact Ef].
    split; [reflexivity|]. intros (d & Hd & Hin). rewrite app_nil_r in Hin.
    unfold registrations, contextForChildren; simpl.
    destruct (Nat.eqb symbol s) eqn:Es; [|reflexivity].
    apply Nat.eqb_eq in Es. subst symbol. exfalso. exact (Hnone d Hd Hin).
Qed.

Lemma respects_convertNode walker registry node type :
  (forall d, respects (quiet P s) (walker d)) ->
  (forall a, respects (quiet P s) (registry a)) ->
  respects (quiet P s) (ReferenceConverter.convertNode P walker registry node type).
Proof.
  intros Hw Hr c t c' E. unfold ReferenceConverter.convertNode in E.
  destruct (ts.TypeReference.symbol type) as [symbol|].
  - destruct (ReferenceConverter.isLiteralSymbol P symbol).
    + exact (respects_convert walker symbol _ Hw c t c' E).
    + destruct (ts.TypeReferenceNode.typeArguments node) as [args|].
      * refine (respects_bind _ _ _ _ c t c' E).
        -- apply respects_mapM. intros n _. apply Hr.
        -- intros ts. apply respects_ret.
      * inversion E; subst. apply quiet_refl.
  - inversion E; subst. apply quiet_refl.
Qed.

Lemma respects_convertType walker registry type :
  (forall d, respects (quiet P s) (walker d)) ->
  (forall a, respects (quiet P s) (registry a)) ->
  respects (quiet P s) (ReferenceConverter.convertType P walker registry type).
Proof.
  intros Hw Hr c t c' E. unfold ReferenceConverter.convertType in E.
  destruct (ts.TypeReference.symbol type) as [symbol|].
  - destruct (ReferenceConverter.isLiteralSymbol P symbol).
    + exact (respects_convert walker symbol _ Hw c t c' E).
    + destruct (ts.TypeReference.typeArguments type) as [args|].
      * refine (respects_bind _ _ _ _ c t c' E).
        -- apply respects_mapM. intros n _. apply Hr.
        -- intros ts. apply respects_ret.
      * inversion E; subst. apply quiet_refl.
  - inversion E; subst. apply quiet_refl.
Qed.

Lemma engine_quiet fuel :
  (forall a, respects (quiet P s) (Engine.type_convertType P defaultType fuel a))
  /\ (forall d, respects (quietFor P s [d])
                  (Engine.node_convertNode P defaultType fuel d)).
Proof.
  induction fuel as [|f [IHa IHd]].
  - split; intros x c a c' E; discriminate.
  - assert (Hw : forall d, respects (quiet P s)
                             (Engine.node_convertNode P defaultType f d)).
    { intros d c u c' E. apply (quietFor_weaken d). exact (IHd d c u c' E). }
    split.
    + intros a c t c' E. rewrite engine_dispatch in E. unfold Engine.dispatch in E.
      destruct a as [n|ty].
      * destruct (ReferenceConverter.supportsNode _ _ _ _).
        -- exact (respects_convertNode _ _ _ _ Hw IHa c t c' E).
        -- inversion E; subst. apply quiet_refl.
      * destruct (ReferenceConverter.supportsType _ _ _).
        -- exact (respects_convertType _ _ _ Hw IHa c t c' E).
        -- inversion E; subst. apply quiet_refl.
    + intros d c u c' E. rewrite engine_walk in E.
      exact (walk_quiet _ d (fun m _ => IHa _) c u c' E).
Qed.

End Quiet.

(** C2 (as amended).  In a program with finitely many declarations [U], whose
    members nest written type arguments at most [H] deep and whose literal
    declarations have a parent, converting a symbol none of whose declarations
    is on the visit stack returns once the recursion may go
    [length U * (H + 1)] deep, however far the type structure unfolds.  It
    yields the ReflectionType of one new synthetic node: exactly one
    registration is added for the symbol, and visit stack and scope are back
    as they were.  Whenever the symbol is met again while one of its
    declarations is on the visit stack, the answer is the Reference Type Node
    of Reference Resolution for the symbol of that declaration's parent (for
    a literal) or of the declaration itself, and the context is unchanged. *)
Theorem type_literal_conversion_terminates (P : ts.Program)
  (defaultType : ts.TypeReference.t -> Ty) (U : list ts.NodeId) (H : nat)
  (declarations_in_U :
     forall s d, In d (ts.Symbol.declarations (ts.symbolOf P s)) -> In d U)
  (members_below_H :
     forall d m, In d U -> In m (ts.membersOf P d) ->
                 (nodeHeight (ts.Member.type m) <= H)%nat)
  (literals_have_parent :
     forall d, In d U -> isLiteralKind (ts.Node.kind (ts.nodeOf P d)) = true ->
               ts.Node.parent (ts.nodeOf P d) <> None)
  (symbol : ts.SymbolId) (node : option ts.NodeId) (c : Context.t) (fuel : nat)
  (Hnone : noneOnStack P c symbol)
  (Hfuel : (List.length U * (H + 1) <= fuel)%nat) :
  (exists c',
      Engine.convert P defaultType fuel symbol node c
      = Ok (ReflectionType (List.length (Context.reflections c)), c')
      /\ registrations symbol c'
         = (symbol, List.length (Context.reflections c)) :: registrations symbol c
      /\ Context.visitStack c' = Context.visitStack c
      /\ Context.scope c' = Context.scope c)
  /\ (forall fuel2 node2 c2 d,
         In d (ts.Symbol.declarations (ts.symbolOf P symbol)) ->
         In d (Context.visitStack c2) ->
         exists m,
           In m (ts.Symbol.declarations (ts.symbolOf P symbol))
           /\ In m (Context.visitStack c2)
           /\ Engine.convert P defaultType fuel2 symbol node2 c2
              = Ok (createReferenceType c2 (selfReferenceTarget P m), c2)).
Proof.
  split.
  - unfold Engine.convert. rewrite convert_fresh by exact Hnone.
    set (decls := ts.Symbol.declarations (ts.symbolOf P symbol)).
    set (c1 := contextForChildren c symbol node).
    assert (Hkeep : forall d, In d decls ->
                      keepsStack (Context.visitStack c)
                        (Engine.node_convertNode P defaultType fuel d)).
    { intros d Hd.
      apply (proj2 (engine_returns P defaultType U H declarations_in_U
                      members_below_H literals_have_parent fuel)).
      - exact (declarations_in_U symbol d Hd).
      - exact (Hnone d Hd).
      - pose proof (remaining_le U (Context.visitStack c)). nia. }
    destruct (keeps_forEach _ _ decls Hkeep c1 eq_refl) as ([] & c2 & E & Hs2).
    rewrite E. exists (setScope (Context.scope c) c2).
    split; [reflexivity|]. split; [|split; [exact Hs2|reflexivity]].
    apply (forEach_preserves _
             (fun a b => Context.visitStack b = Context.visitStack a
                         /\ registrations symbol b = registrations symbol a))
      in E.
    + destruct E as [_ Hr]. unfold registrations in *. simpl in *.
      rewrite Hr. rewrite Nat.eqb_refl. reflexivity.
    + intros a. split; reflexivity.
    + intros a b c0 [Hs1 Hr1] [Hs3 Hr3]. split; congruence.
    + intros d Hd a u b Ew.
      destruct (proj2 (engine_quiet P defaultType symbol fuel) d a u b Ew)
        as [Hs Hq].
      split; [exact Hs|]. apply Hq. exists d. split; [exact Hd|].
      apply in_or_app. right. left. reflexivity.
  - intros fuel2 node2 c2 d Hd Hs.
    destruct (first_on_stack _ _ _ Hd Hs) as (pre & m & post & E & Hpre & Hm).
    assert (Hin : In m (ts.Symbol.declarations (ts.symbolOf P symbol))).
    { rewrite E. apply in_elt. }
    exists m. split; [exact Hin|split; [exact Hm|]].
    unfold Engine.convert.
    apply (convert_on_stack P c2 symbol node2 pre m post _ E Hpre Hm).
    apply literals_have_parent. exact (declarations_in_U symbol m Hin).
Qed.

(* ================================================================== *)
(** ** The resolution pass *)

Lemma targets_resolveType registry t :
  targets (resolveType registry t) = map (resolveTarget registry) (targets t).
Proof.
  revert t. fix IH 1. intros [name|target args|d]; simpl; try reflexivity.
  f_equal. destruct args as [ts|]; [|reflexivity].
  induction ts as [|x xs IHxs]; simpl; [reflexivity|].
  rewrite map_app, IH, IHxs. reflexivity.
Qed.

Lemma modelTargets_resolve registry rs :
  flat_map reflectionTargets (map (resolveReflection registry) rs)
  = map (resolveTarget registry) (flat_map reflectionTargets rs).
Proof.
  induction rs as [|d rs IH]; simpl; [reflexivity|].
  rewrite map_app, IH. f_equal.
  unfold reflectionTargets, resolveReflection; simpl.
  destruct (DeclarationReflection.type d); [apply targets_resolveType|reflexivity].
Qed.

Lemma resolveTarget_settled registry t : isPending (resolveTarget registry t) = false.
Proof.
  destruct t as [id|[s|]|]; simpl; try reflexivity.
  destruct (lookup registry s); reflexivity.
Qed.

(** C8.  The resolution pass returns on every context.  It rewrites the
    reference targets of the model in place, one by one; a reference pending
    on a symbol the registry does not know becomes the external marker, and
    no reference is left pending. *)
Theorem unresolved_reference_becomes_external (c : Context.t) (s : ts.SymbolId)
  (Hunregistered : lookup (Context.registry c) s = None) :
  exists c',
    resolveReferences c = Ok (tt, c')
    /\ modelTargets c'
       = map (resolveTarget (Context.registry c)) (modelTargets c)
    /\ resolveTarget (Context.registry c) (Pending (Some s)) = External
    /\ (forall args,
           resolveType (Context.registry c) (ReferenceType (Pending (Some s)) args)
           = ReferenceType External
               (match args with
                | Some ts => Some (map (resolveType (Context.registry c)) ts)
                | None => None
                end))
    /\ (In (Pending (Some s)) (modelTargets c) -> In External (modelTargets c'))
    /\ (forall t, In t (modelTargets c') -> isPending t = false).
Proof.
  eexists. split; [reflexivity|].
  assert (Hext : resolveTarget (Context.registry c) (Pending (Some s)) = External).
  { simpl. rewrite Hunregistered. reflexivity. }
  assert (Hmap : modelTargets
                   (setReflections
                      (map (resolveReflection (Context.registry c))
                           (Context.reflections c)) c)
                 = map (resolveTarget (Context.registry c)) (modelTargets c)).
  { unfold modelTargets; simpl. apply modelTargets_resolve. }
  split; [exact Hmap|split; [exact Hext|split; [|split]]].
  - intros args. simpl. rewrite Hunregistered. reflexivity.
  - intros Hin. rewrite Hmap, <- Hext.
    apply in_map. exact Hin.
  - intros t Hin. rewrite Hmap in Hin. apply in_map_iff in Hin.
    destruct Hin as (t0 & <- & _). apply resolveTarget_settled.
Qed.

(* ================================================================== *)
(** ** The properties on the sample program *)

Lemma carriesFlag_bit flags mask i :
  0 <= i < 32 -> Z.testbit flags i = true -> Z.testbit mask i = true ->
  carriesFlag flags mask.
Proof. intros Hi Hf Hm. exists i. repeat split; try assumption; lia. Qed.

Lemma carriesFlag_not flags mask :
  js.truthy (js.bitand flags mask) = false -> ~ carriesFlag flags mask.
Proof. intros Hf Hc. apply truthy_bitand_iff in Hc. congruence. Qed.

(** C1 on the sample: inside literal 11, its symbol converts to a reference
    pending on [T], the symbol of the literal's parent. *)
Lemma convert_on_stack_returns_reference_sample :
  ReferenceConverter.convert Sample.program idleWalker 1%nat None
    Sample.insideLiteral
  = Ok (ReferenceType (Pending (Some 0%nat)) None, Sample.insideLiteral).
Proof.
  destruct (convert_on_stack_returns_reference Sample.program
              Sample.insideLiteral 1%nat None 11%nat
              (or_introl eq_refl) (or_introl eq_refl))
    as (pre & m & post & E & _ & _ & Hm).
  assert (E11 : m = 11%nat).
  { simpl in E. destruct pre as [|x [|y pre]]; simpl in E;
      inversion E; reflexivity. }
  subst m.
  exact (proj1 (Hm 0%nat
                  (or_introl (conj eq_refl
                                (ex_intro _ 10%nat (conj eq_refl eq_refl))))
                  idleWalker)).
Defined.

(** C10 on the sample: inside literal 11 the conversion of its symbol leaves
    the context as it is. *)
Lemma convert_on_stack_frame_sample :
  exists t, forall walker,
      ReferenceConverter.convert Sample.program walker 1%nat None
        Sample.insideLiteral
      = Ok (t, Sample.insideLiteral).
Proof.
  refine (proj2 (convert_on_stack_frame Sample.program Sample.insideLiteral
                   1%nat None 11%nat (or_introl eq_refl) (or_introl eq_refl)) _).
  intros x [<-|[]] _. simpl. discriminate.
Defined.

Lemma noneOnStack_sample : noneOnStack Sample.program emptyContext 1%nat.
Proof. intros d _ []. Defined.

(** C3 as stated fails: the declaration of the sample literal is converted
    while the visit stack is still the empty stack [convert] was entered
    with.  A walker that insists on the empty stack goes through; one that
    expects anything pushed raises. *)
Lemma convert_pushes_nothing_on_visit_stack :
  (exists c', ReferenceConverter.convert Sample.program (expectVisitStack [])
                1%nat None emptyContext
              = Ok (ReflectionType 0%nat, c'))
  /\ (forall pushed rest,
         ReferenceConverter.convert Sample.program
           (expectVisitStack (pushed :: rest)) 1%nat None emptyContext
         = Err TypeError).
Proof.
  split; [eexists; reflexivity|]. intros pushed rest. reflexivity.
Qed.

(** C3 (as amended) on the sample. *)
Lemma convert_fresh_steps_sample :
  noneOnStack Sample.program emptyContext 1%nat
  /\ lookup (Context.registry (contextForChildren emptyContext 1%nat None)) 1%nat
     = Some 0%nat
  /\ exists c',
      ReferenceConverter.convert Sample.program idleWalker 1%nat None emptyContext
      = Ok (ReflectionType 0%nat, c').
Proof.
  split; [exact noneOnStack_sample|].
  pose (W := convert_fresh_steps Sample.program idleWalker emptyContext 1%nat
               None noneOnStack_sample).
  split; [exact (proj1 (proj2 W))|].
  eexists. exact (proj1 (proj2 (proj2 (proj2 (proj2 W))))).
Defined.

(** C4 as stated fails: symbols 5 and 6 of the sample have no declarations,
    and their types convert to a pending reference and to the ReflectionType
    of a fresh synthetic node, not to the [Object] placeholder. *)
Lemma symbol_without_declarations_is_not_Object :
  ts.Symbol.declarations (ts.symbolOf Sample.program 5%nat) = []
  /\ ts.Symbol.declarations (ts.symbolOf Sample.program 6%nat) = []
  /\ ReferenceConverter.convertType Sample.program idleWalker idleRegistry
       Sample.bareType emptyContext
     = Ok (ReferenceType (Pending (Some 5%nat)) None, emptyContext)
  /\ ReferenceConverter.convertNode Sample.program idleWalker idleRegistry
       Sample.site Sample.bareType emptyContext
     = Ok (ReferenceType (Pending (Some 5%nat)) None, emptyContext)
  /\ (exists c', ReferenceConverter.convertType Sample.program idleWalker
                   idleRegistry Sample.bareLiteralType emptyContext
                 = Ok (ReflectionType 0%nat, c'))
  /\ (forall c', ReferenceConverter.convertType Sample.program idleWalker
                   idleRegistry Sample.bareType emptyContext
                 <> Ok (IntrinsicType "Object", c')).
Proof.
  repeat split; try reflexivity; [eexists; reflexivity|].
  intros c' E. discriminate E.
Qed.

(** C4 (as amended) on the sample. *)
Lemma ownerless_type_is_Object_sample :
  ReferenceConverter.convertNode Sample.program idleWalker idleRegistry
    Sample.site Sample.ownerlessType emptyContext
  = Ok (IntrinsicType "Object", emptyContext)
  /\ ReferenceConverter.convertType Sample.program idleWalker idleRegistry
       Sample.ownerlessType emptyContext
     = Ok (IntrinsicType "Object", emptyContext).
Proof.
  exact (ownerless_type_is_Object Sample.program idleWalker idleRegistry
           Sample.site Sample.ownerlessType emptyContext eq_refl).
Defined.

(** C5 as stated fails: symbol 4 of the sample carries the type-literal flag;
    met again while its function-type declaration 21 is on the visit stack,
    its type converts to a plain Reference Type Node for symbol 4 itself, the
    very node Reference Resolution gives for that symbol. *)
Lemma literal_symbol_yields_plain_reference :
  carriesFlag (ts.Symbol.flags (ts.symbolOf Sample.program 4%nat))
              (ts.SymbolFlags_TypeLiteral Sample.program)
  /\ ts.TypeReference.symbol Sample.functionType = Some 4%nat
  /\ ReferenceConverter.convertType Sample.program idleWalker idleRegistry
       Sample.functionType Sample.insideFunctionType
     = Ok (createReferenceType Sample.insideFunctionType (Some 4%nat),
           Sample.insideFunctionType)
  /\ ReferenceConverter.convertNode Sample.program idleWalker idleRegistry
       Sample.site Sample.functionType Sample.insideFunctionType
     = Ok (createReferenceType Sample.insideFunctionType (Some 4%nat),
           Sample.insideFunctionType)
  /\ createReferenceType Sample.insideFunctionType (Some 4%nat)
     = ReferenceType (Resolved 0%nat) None
  /\ targetsSymbol Sample.insideFunctionType
       (ReferenceType (Resolved 0%nat) None) 4%nat.
Proof.
  split; [apply (carriesFlag_bit _ _ 11); [lia|reflexivity|reflexivity]|].
  repeat split.
Qed.

(** C5 (as amended) on the sample: the literal's type, met on an empty visit
    stack, goes through [convert]. *)
Lemma literal_symbol_delegates_sample :
  ReferenceConverter.convertNode Sample.program idleWalker idleRegistry
    Sample.site Sample.literalType emptyContext
  = ReferenceConverter.convert Sample.program idleWalker 1%nat (Some 13%nat)
      emptyContext
  /\ ReferenceConverter.convertType Sample.program idleWalker idleRegistry
       Sample.literalType emptyContext
     = ReferenceConverter.convert Sample.program idleWalker 1%nat None
         emptyContext.
Proof.
  assert (Hflag : carriesFlag 2048 2048).
  { exists 11. split; [lia|split; reflexivity]. }
  pose (W := literal_symbol_delegates Sample.program idleWalker idleRegistry
               Sample.site Sample.literalType emptyContext 1%nat eq_refl
               (or_introl Hflag)).
  exact (conj (proj1 W) (proj1 (proj2 W))).
Defined.

(** C6 on the sample: the generic reference [T<T>] by resolved type. *)
Lemma named_reference_with_arguments_sample :
  exists target,
    createReferenceType emptyContext (Some 0%nat) = ReferenceType target None
    /\ forall r c',
        ReferenceConverter.convertType Sample.program idleWalker idleRegistry
          Sample.genericType emptyContext = Ok (r, c')
        <-> exists ts,
            r = ReferenceType target (Some ts)
            /\ convertedInOrder idleRegistry
                 [ofType (ts.TypeReference.mk 4096 (Some 0%nat) None)]
                 emptyContext ts c'.
Proof.
  destruct (named_reference_with_arguments Sample.program idleWalker
              idleRegistry Sample.site Sample.genericType emptyContext 0%nat
              eq_refl
              (carriesFlag_not 524288 2048 eq_refl)
              (carriesFlag_not 524288 4096 eq_refl))
    as (target & Hc & _ & _ & Ht).
  exists target. split; [exact Hc|exact Ht].
Defined.

(** C7 on the sample. *)
Lemma convert_fresh_notifies_once_sample :
  Context.events (contextForChildren emptyContext 1%nat (Some 13%nat))
  = [EVENT_CREATE_DECLARATION 0%nat (Some 13%nat)]
  /\ countCreated 0%nat (Context.events
                       (contextForChildren emptyContext 1%nat (Some 13%nat)))
     = 1%nat.
Proof.
  pose (W := convert_fresh_notifies_once Sample.program idleWalker emptyContext
               1%nat (Some 13%nat) noneOnStack_sample).
  exact (conj (proj1 W) (proj1 (proj2 W))).
Defined.

(** C8 on the sample: the reference left pending on [T] becomes external. *)
Lemma unresolved_reference_becomes_external_sample :
  exists c',
    resolveReferences Sample.finished = Ok (tt, c')
    /\ modelTargets c' = [External].
Proof.
  destruct (unresolved_reference_becomes_external Sample.finished 0%nat eq_refl)
    as (c' & E & Hm & _).
  exists c'. split; [exact E|exact Hm].
Defined.

Lemma sample_declarations s d :
  In d (ts.Symbol.declarations (ts.symbolOf Sample.program s)) ->
  In d Sample.declarations.
Proof.
  do 7 (destruct s as [|s]; [simpl; intuition|]). simpl. intuition.
Defined.

Lemma sample_members d m :
  In d Sample.declarations -> In m (ts.membersOf Sample.program d) ->
  (nodeHeight (ts.Member.type m) <= 1)%nat.
Proof.
  intros Hd Hm. simpl in Hd.
  destruct Hd as [<-|[<-|[<-|[<-|[<-|[]]]]]]; simpl in Hm;
    try (destruct Hm as [<-|[]]; simpl; apply Nat.le_refl); destruct Hm.
Defined.

Lemma sample_literals d :
  In d Sample.declarations ->
  isLiteralKind (ts.Node.kind (ts.nodeOf Sample.program d)) = true ->
  ts.Node.parent (ts.nodeOf Sample.program d) <> None.
Proof.
  intros Hd. simpl in Hd.
  destruct Hd as [<-|[<-|[<-|[<-|[<-|[]]]]]]; simpl; discriminate.
Defined.

(** C2 as stated fails: converting the literal of [type T = { self: T }]
    inside its alias gives synthetic node 1 with one member, node 2, and the
    type of that member is a reference resolved to node 0, the Declaration
    Node of the alias [T] (the symbol of the literal's parent), not to the
    synthetic node. *)
Lemma self_reference_targets_parent :
  exists c',
    Engine.convert Sample.program Sample.defaultType 4 1%nat (Some 11%nat)
      Sample.insideAlias
    = Ok (ReflectionType 1%nat, c')
    /\ lookup (Context.registry c') 1%nat = Some 1%nat
    /\ nth_error (Context.reflections c') 1
       = Some (DeclarationReflection.mk ReflectionKind.TypeLiteral "__type"
                 (Some 0%nat) [2%nat] None)
    /\ nth_error (Context.reflections c') 2
       = Some (DeclarationReflection.mk ReflectionKind.Property "self"
                 (Some 1%nat) [] (Some (ReferenceType (Resolved 0%nat) None)))
    /\ ~ leadsTo c' (ReferenceType (Resolved 0%nat) None) 1%nat
    /\ ~ targetsSymbol c' (ReferenceType (Resolved 0%nat) None) 1%nat.
Proof.
  eexists. split; [vm_compute; reflexivity|].
  repeat split; simpl; discriminate.
Qed.

(** C2 (as amended) on the sample, from an empty context. *)
Lemma type_literal_conversion_terminates_sample :
  exists c',
    Engine.convert Sample.program Sample.defaultType 10 1%nat (Some 11%nat)
      emptyContext
    = Ok (ReflectionType 0%nat, c')
    /\ registrations 1%nat c' = [(1%nat, 0%nat)].
Proof.
  destruct (proj1 (type_literal_conversion_terminates Sample.program
                     Sample.defaultType Sample.declarations 1
                     sample_declarations sample_members sample_literals
                     1%nat (Some 11%nat) emptyContext 10
                     noneOnStack_sample (le_n 10)))
    as (c' & E & Hr & _).
  exists c'. split; [exact E|exact Hr].
Defined.

(* ================================================================== *)
(** ** Further properties of the converter *)

Lemma mapM_length {A} (f : A -> M Ty) xs c ts c' :
  mapM f xs c = Ok (ts, c') -> List.length ts = List.length xs.
Proof.
  revert c ts c'. induction xs as [|x xs IH]; simpl; intros c ts c' E.
  - inversion E; reflexivity.
  - unfold bind in E. destruct (f x c) as [[t c1]|e]; [|discriminate].
    destruct (mapM f xs c1) as [[ts' c2]|e] eqn:E'; [|discriminate].
    inversion E; subst. simpl. f_equal. exact (IH _ _ _ E').
Qed.

(** X1.  A named reference carries exactly as many type arguments as its
    source site: none when the site has no argument list, an empty list (and
    not an absent one) for an empty argument list, and otherwise one converted
    argument per written argument ([convertNode]) or per resolved argument
    ([convertType]). *)
Theorem type_arguments_keep_their_number (P : ts.Program)
  (walker : ts.NodeId -> M unit) (registry : TypeArg -> M Ty)
  (node : ts.TypeReferenceNode.t) (type : ts.TypeReference.t) (c : Context.t)
  (s : ts.SymbolId)
  (Hsymbol : ts.TypeReference.symbol type = Some s)
  (Hnamed : ReferenceConverter.isLiteralSymbol P s = false) :
  (forall r c',
      ReferenceConverter.convertNode P walker registry node type c = Ok (r, c') ->
      match ts.TypeReferenceNode.typeArguments node with
      | None => typeArgumentsOf r = None
      | Some args => exists ts, typeArgumentsOf r = Some ts
                                /\ List.length ts = List.length args
      end)
  /\ (forall r c',
         ReferenceConverter.convertType P walker registry type c = Ok (r, c') ->
         match ts.TypeReference.typeArguments type with
         | None => typeArgumentsOf r = None
         | Some args => exists ts, typeArgumentsOf r = Some ts
                                   /\ List.length ts = List.length args
         end)
  /\ (ts.TypeReferenceNode.typeArguments node = Some [] ->
      exists target,
        ReferenceConverter.convertNode P walker registry node type c
        = Ok (ReferenceType target (Some []), c))
  /\ (ts.TypeReference.typeArguments type = Some [] ->
      exists target,
        ReferenceConverter.convertType P walker registry type c
        = Ok (ReferenceType target (Some []), c)).
Proof.
  assert (Hc : exists target, createReferenceType c (Some s) = ReferenceType target None).
  { unfold createReferenceType. destruct (lookup _ _); eexists; reflexivity. }
  destruct Hc as [target Hc].
  unfold ReferenceConverter.convertNode, ReferenceConverter.convertType.
  rewrite Hsymbol, Hnamed, Hc.
  split; [|split; [|split]].
  - intros r c' E.
    destruct (ts.TypeReferenceNode.typeArguments node) as [args|].
    + unfold bind in E. destruct (mapM _ args c) as [[ts c1]|e] eqn:Em; [|discriminate].
      inversion E; subst. exists ts. split; [reflexivity|].
      exact (mapM_length _ _ _ _ _ Em).
    + inversion E; subst. reflexivity.
  - intros r c' E.
    destruct (ts.TypeReference.typeArguments type) as [args|].
    + unfold bind in E. destruct (mapM _ args c) as [[ts c1]|e] eqn:Em; [|discriminate].
      inversion E; subst. exists ts. split; [reflexivity|].
      exact (mapM_length _ _ _ _ _ Em).
    + inversion E; subst. reflexivity.
  - intros E. rewrite E. exists target. reflexivity.
  - intros E. rewrite E. exists target. reflexivity.
Qed.

(** X2.  The cycle check looks at the visit stack only for membership: on
    two contexts whose visit stacks hold the same declarations (in any order,
    any number of times) and whose registries agree, a symbol with a
    declaration on the stack converts to the same Type Node, or raises on
    both, whatever the walker and the syntax node passed along. *)
Theorem cycle_check_ignores_stack_order (P : ts.Program) (c c' : Context.t)
  (symbol : ts.SymbolId) (d : ts.NodeId)
  (Hd : In d (ts.Symbol.declarations (ts.symbolOf P symbol)))
  (Hstack : In d (Context.visitStack c))
  (Hsame : sameDeclarations (Context.visitStack c) (Context.visitStack c'))
  (Hregistry : Context.registry c = Context.registry c') :
  forall walker walker' node node',
    (ReferenceConverter.convert P walker symbol node c = Err TypeError
     /\ ReferenceConverter.convert P walker' symbol node' c' = Err TypeError)
    \/ (exists t,
           ReferenceConverter.convert P walker symbol node c = Ok (t, c)
           /\ ReferenceConverter.convert P walker' symbol node' c' = Ok (t, c')).
Proof.
  intros walker walker' node node'.
  destruct (first_on_stack _ _ _ Hd Hstack) as (pre & m & post & E & Hpre & Hm).
  assert (Hpre' : forall x, In x pre -> ~ In x (Context.visitStack c')).
  { intros x Hx Hin. apply (Hpre x Hx). apply Hsame. exact Hin. }
  assert (Hm' : In m (Context.visitStack c')) by (apply Hsame; exact Hm).
  unfold ReferenceConverter.convert. rewrite E.
  rewrite !scan_matched by assumption.
  unfold createReferenceType. rewrite Hregistry.
  destruct (isLiteralKind _); [destruct (ts.Node.parent _)|];
    try (left; split; reflexivity); right; eexists; split; reflexivity.
Qed.


Lemma continues_refl c : continues c c.
Proof.
  split.
  - intros id d E. exists d. split; [exact E|repeat split].
  - exists []. rewrite app_nil_r. reflexivity.
Qed.

Lemma continues_trans a b c : continues a b -> continues b c -> continues a c.
Proof.
  intros [Hr1 [e1 He1]] [Hr2 [e2 He2]]. split.
  - intros id d E. destruct (Hr1 id d E) as (d1 & E1 & K1 & N1 & P1).
    destruct (Hr2 id d1 E1) as (d2 & E2 & K2 & N2 & P2).
    exists d2. split; [exact E2|]. repeat split; congruence.
  - exists (e1 ++ e2). rewrite He2, He1, app_assoc. reflexivity.
Qed.

Lemma continues_same c c' :
  Context.reflections c' = Context.reflections c ->
  Context.events c' = Context.events c -> continues c c'.
Proof.
  intros Hr He. split.
  - intros id d E. exists d. rewrite Hr. split; [exact E|repeat split].
  - exists []. rewrite He, app_nil_r. reflexivity.
Qed.

Lemma continues_ext a a' b b' :
  Context.reflections a' = Context.reflections a ->
  Context.events a' = Context.events a ->
  Context.reflections b' = Context.reflections b ->
  Context.events b' = Context.events b ->
  continues a b -> continues a' b'.
Proof.
  unfold continues. intros Hra Hea Hrb Heb H. rewrite Hra, Hea, Hrb, Heb. exact H.
Qed.

Lemma continues_children c symbol node :
  continues c (contextForChildren c symbol node).
Proof.
  split.
  - intros id d E. exists d. split; [|repeat split].
    unfold contextForChildren; simpl. rewrite nth_error_app1; [exact E|].
    apply nth_error_Some. congruence.
  - eexists. reflexivity.
Qed.

Lemma mapM_preserves {A} (f : A -> M Ty) (I : Context.t -> Context.t -> Prop) xs :
  (forall c, I c c) ->
  (forall a b c, I a b -> I b c -> I a c) ->
  (forall x, In x xs -> forall c t c', f x c = Ok (t, c') -> I c c') ->
  forall c ts c', mapM f xs c = Ok (ts, c') -> I c c'.
Proof.
  intros Hrefl Htrans. induction xs as [|x xs IH]; simpl; intros Hf c ts c' E.
  - inversion E; subst. apply Hrefl.
  - unfold bind in E. destruct (f x c) as [[t c1]|e] eqn:Ex; [|discriminate].
    destruct (mapM f xs c1) as [[ts' c2]|e] eqn:Em; [|discriminate].
    inversion E; subst.
    apply Htrans with c1; [exact (Hf x (or_introl eq_refl) _ _ _ Ex)|].
    exact (IH (fun y Hy => Hf y (or_intror Hy)) _ _ _ Em).
Qed.

Lemma convert_continues P walker symbol node c t c' :
  (forall d a u b, walker d a = Ok (u, b) -> continues a b) ->
  ReferenceConverter.convert P walker symbol node c = Ok (t, c') ->
  continues c c'.
Proof.
  intros Hw E.
  destruct (any_on_stack (Context.visitStack c)
              (ts.Symbol.declarations (ts.symbolOf P symbol)))
    as [(d & Hd & Hs)|Hnone].
  - rewrite (convert_on_stack_same P c symbol node walker d t c' Hd Hs E).
    apply continues_refl.
  - rewrite convert_fresh in E by exact Hnone.
    destruct (forEach _ _ _) as [[u c2]|e] eqn:Ef; [|discriminate].
    inversion E; subst.
    apply (forEach_preserves walker continues _ continues_refl continues_trans)
      in Ef; [|intros x _; exact (Hw x)].
    apply (continues_ext c c c2 (setScope (Context.scope c) c2)); try reflexivity.
    apply continues_trans with (contextForChildren c symbol node);
      [apply continues_children|exact Ef].
Qed.

Lemma convertNode_continues P walker registry node type c t c' :
  (forall d a u b, walker d a = Ok (u, b) -> continues a b) ->
  (forall x a r b, registry x a = Ok (r, b) -> continues a b) ->
  ReferenceConverter.convertNode P walker registry node type c = Ok (t, c') ->
  continues c c'.
Proof.
  intros Hwalker Hregistry E. unfold ReferenceConverter.convertNode in E.
  destruct (ts.TypeReference.symbol type) as [symbol|].
  - destruct (ReferenceConverter.isLiteralSymbol P symbol).
    + exact (convert_continues _ _ _ _ _ _ _ Hwalker E).
    + destruct (ts.TypeReferenceNode.typeArguments node) as [args|].
      * unfold bind in E.
        destruct (mapM _ args c) as [[ts c1]|e] eqn:Em; [|discriminate].
        inversion E; subst.
        apply (mapM_preserves _ continues _ continues_refl continues_trans)
          in Em; [exact Em|].
        intros n _ a t0 b. apply Hregistry.
      * inversion E; subst. apply continues_refl.
  - inversion E; subst. apply continues_refl.
Qed.

Lemma convertType_continues P walker registry type c t c' :
  (forall d a u b, walker d a = Ok (u, b) -> continues a b) ->
  (forall x a r b, registry x a = Ok (r, b) -> continues a b) ->
  ReferenceConverter.convertType P walker registry type c = Ok (t, c') ->
  continues c c'.
Proof.
  intros Hwalker Hregistry E. unfold ReferenceConverter.convertType in E.
  destruct (ts.TypeReference.symbol type) as [symbol|].
  - destruct (ReferenceConverter.isLiteralSymbol P symbol).
    + exact (convert_continues _ _ _ _ _ _ _ Hwalker E).
    + destruct (ts.TypeReference.typeArguments type) as [args|].
      * unfold bind in E.
        destruct (mapM _ args c) as [[ts c1]|e] eqn:Em; [|discriminate].
        inversion E; subst.
        apply (mapM_preserves _ continues _ continues_refl continues_trans)
          in Em; [exact Em|].
        intros n _ a t0 b. apply Hregistry.
      * inversion E; subst. apply continues_refl.
  - inversion E; subst. apply continues_refl.
Qed.

(** X4.  The converter never withdraws anything from the model: whenever
    [convert], [convertNode] or [convertType] returns, every Declaration Node
    that existed on entry is still there under its id with its kind, name and
    parent, and the notifications fired before are still the first ones,
    provided the walker and the registry it calls back into behave so. *)
Theorem conversion_keeps_the_model (P : ts.Program)
  (walker : ts.NodeId -> M unit) (registry : TypeArg -> M Ty)
  (Hwalker : forall d a u b, walker d a = Ok (u, b) -> continues a b)
  (Hregistry : forall x a t b, registry x a = Ok (t, b) -> continues a b) :
  (forall symbol node c t c',
      ReferenceConverter.convert P walker symbol node c = Ok (t, c') ->
      continues c c')
  /\ (forall node type c t c',
         ReferenceConverter.convertNode P walker registry node type c = Ok (t, c') ->
         continues c c')
  /\ (forall type c t c',
         ReferenceConverter.convertType P walker registry type c = Ok (t, c') ->
         continues c c').
Proof.
  split; [|split].
  - intros symbol node c t c' E. exact (convert_continues _ _ _ _ _ _ _ Hwalker E).
  - intros node type c t c' E.
    exact (convertNode_continues _ _ _ _ _ _ _ _ Hwalker Hregistry E).
  - intros type c t c' E.
    exact (convertType_continues _ _ _ _ _ _ _ Hwalker Hregistry E).
Qed.

Lemma nth_error_updateAt {A} (f : A -> A) xs i j :
  nth_error (updateAt i f xs) j
  = if Nat.eqb j i then option_map f (nth_error xs j) else nth_error xs j.
Proof.
  revert i j. induction xs as [|x xs IH]; intros i j; simpl.
  - destruct i, j; simpl; try reflexivity. destruct (Nat.eqb j i); reflexivity.
  - destruct i as [|i]; destruct j as [|j]; simpl; try reflexivity.
    apply IH.
Qed.

Lemma continues_updateAt c i f :
  (forall d, sameIdentity d (f d)) ->
  continues c (setReflections (updateAt i f (Context.reflections c)) c).
Proof.
  intros Hf. split; [|exists []; simpl; rewrite app_nil_r; reflexivity].
  intros id d E. simpl. rewrite nth_error_updateAt, E.
  destruct (Nat.eqb id i); simpl; eexists; (split; [reflexivity|]);
    [apply Hf|repeat split].
Qed.

Lemma continues_bind {A B} (m : M A) (k : A -> M B) :
  respects continues m -> (forall a, respects continues (k a)) ->
  respects continues (bind m k).
Proof.
  intros Hm Hk c b c' E. unfold bind in E.
  destruct (m c) as [[a c1]|e] eqn:Em; [|discriminate].
  apply continues_trans with c1; [exact (Hm _ _ _ Em)|exact (Hk a _ _ _ E)].
Qed.

Lemma continues_new d : respects continues (new d).
Proof.
  intros c a c' E. inversion E; subst. split.
  - intros id x Ex. exists x. split; [|repeat split]. simpl.
    rewrite nth_error_app1; [exact Ex|]. apply nth_error_Some. congruence.
  - exists []. simpl. rewrite app_nil_r. reflexivity.
Qed.

Lemma continues_trigger e : respects continues (trigger e).
Proof.
  intros c a c' E. inversion E; subst. split.
  - intros id x Ex. exists x. split; [exact Ex|repeat split].
  - eexists. reflexivity.
Qed.

Lemma continues_addChild scope child : respects continues (addChild scope child).
Proof.
  intros c a c' E. unfold addChild in E. destruct scope; inversion E; subst.
  - apply continues_updateAt. intros d. repeat split.
  - apply continues_refl.
Qed.

Lemma continues_setType r t : respects continues (setType r t).
Proof.
  intros c a c' E. inversion E; subst.
  apply continues_updateAt. intros d. repeat split.
Qed.

Lemma continues_withScope {A} scope (m : M A) :
  respects continues m -> respects continues (withScope scope m).
Proof.
  intros Hm c a c' E. unfold withScope in E.
  destruct (m (setScope (Some scope) c)) as [[x c1]|e] eqn:Em; [|discriminate].
  inversion E; subst.
  apply (continues_ext (setScope (Some scope) c) c c1
           (setScope (Context.scope c) c1)); try reflexivity.
  exact (Hm _ _ _ Em).
Qed.

Lemma convertMember_continues registry m :
  respects continues (registry (ofNode (ts.Member.type m))) ->
  respects continues (Engine.convertMember registry m).
Proof.
  intros Hr c a c' E. unfold Engine.convertMember in E.
  refine (continues_bind _ _ (continues_new _) _ c a c' E). intros child.
  apply continues_bind; [apply continues_trigger|]. intros _.
  apply continues_bind; [apply continues_addChild|]. intros _.
  apply continues_bind; [apply continues_withScope; exact Hr|]. intros t.
  apply continues_setType.
Qed.

(** The modelled engine keeps the model in this sense. *)
Lemma engine_continues P defaultType fuel :
  (forall x a t b, Engine.type_convertType P defaultType fuel x a = Ok (t, b) ->
                   continues a b)
  /\ (forall d a u b, Engine.node_convertNode P defaultType fuel d a = Ok (u, b) ->
                      continues a b).
Proof.
  induction fuel as [|f [IHa IHd]].
  - split; intros; discriminate.
  - split.
    + intros x a t b E. rewrite engine_dispatch in E. unfold Engine.dispatch in E.
      destruct x as [n|ty].
      * destruct (ReferenceConverter.supportsNode _ _ _ _).
        -- exact (convertNode_continues _ _ _ _ _ _ _ _ IHd IHa E).
        -- inversion E; subst. apply continues_refl.
      * destruct (ReferenceConverter.supportsType _ _ _).
        -- exact (convertType_continues _ _ _ _ _ _ _ IHd IHa E).
        -- inversion E; subst. apply continues_refl.
    + intros d a u b E. rewrite engine_walk in E. unfold Engine.walk in E.
      destruct (forEach _ _ _) as [[v c1]|e] eqn:Ef; [|discriminate].
      inversion E; subst.
      apply (forEach_preserves _ continues _ continues_refl continues_trans)
        in Ef.
      * apply (continues_ext (setVisitStack (Context.visitStack a ++ [d]) a) a
                 c1 (setVisitStack (Context.visitStack a) c1)); try reflexivity.
        exact Ef.
      * intros m _ c u0 c' Em.
        exact (convertMember_continues _ m (fun a0 r b0 => IHa _ a0 r b0) c u0 c' Em).
Qed.

(* ================================================================== *)
(** ** Properties of the accordion *)

Section AccordionProperties.

Context {Storage : Type}.
Variable getItem : Storage -> string -> option string.
Variable setItem : Storage -> string -> string -> Storage.

Lemma booleanToString_read b :
  Accordion.truthyString (Accordion.booleanToString b) = true
  /\ String.eqb (Accordion.booleanToString b) "true" = b.
Proof. destruct b; split; reflexivity. Qed.

Lemma reading_ext (a b : @Accordion.t Storage) :
  Accordion.storage b = Accordion.storage a ->
  Accordion.key b = Accordion.key a ->
  Accordion.open (Accordion.el b) = Accordion.open (Accordion.el a) ->
  Accordion.fromLocalStorage getItem b = Accordion.fromLocalStorage getItem a.
Proof.
  intros Hs Hk Ho. unfold Accordion.fromLocalStorage. rewrite Hs, Hk, Ho.
  reflexivity.
Qed.

Lemma reading_after_write (a b : @Accordion.t Storage) value :
  Accordion.faithfulOrSilent getItem setItem ->
  Accordion.storage b
  = setItem (Accordion.storage a) (Accordion.key a)
      (Accordion.booleanToString value) ->
  Accordion.key b = Accordion.key a ->
  Accordion.open (Accordion.el b) = value ->
  Accordion.fromLocalStorage getItem b = value.
Proof.
  intros Hlaw Hs Hk Ho. unfold Accordion.fromLocalStorage. rewrite Hs, Hk, Ho.
  destruct (Hlaw (Accordion.storage a) (Accordion.key a)
              (Accordion.booleanToString value)) as [E|E]; rewrite E.
  - destruct (booleanToString_read value) as [-> ->]. reflexivity.
  - reflexivity.
Qed.

Lemma animate_frame s e o d (a : @Accordion.t Storage) :
  Accordion.el (Accordion.animate s e o d a) = Accordion.el a
  /\ Accordion.key (Accordion.animate s e o d a) = Accordion.key a
  /\ Accordion.storage (Accordion.animate s e o d a) = Accordion.storage a
  /\ Accordion.iconTransform (Accordion.animate s e o d a)
     = Accordion.iconTransform a
  /\ Accordion.collapsedHeight (Accordion.animate s e o d a)
     = Accordion.collapsedHeight a
  /\ Accordion.expandedHeight (Accordion.animate s e o d a)
     = Accordion.expandedHeight a.
Proof.
  unfold Accordion.animate. destruct (Accordion.animation a); repeat split.
Qed.

Lemma handleValueChange_settled force (a : @Accordion.t Storage) :
  Accordion.fromLocalStorage getItem a = Accordion.open (Accordion.el a) ->
  Accordion.fromLocalStorage getItem (Accordion.handleValueChange getItem force a)
  = Accordion.fromLocalStorage getItem a
  /\ Accordion.open (Accordion.el (Accordion.handleValueChange getItem force a))
     = Accordion.open (Accordion.el a)
  /\ Accordion.storage (Accordion.handleValueChange getItem force a)
     = Accordion.storage a
  /\ Accordion.key (Accordion.handleValueChange getItem force a)
     = Accordion.key a
  /\ (force = false -> Accordion.handleValueChange getItem force a = a).
Proof.
  intros Hr. unfold Accordion.handleValueChange.
  replace (Bool.eqb (Accordion.fromLocalStorage getItem a)
             (Accordion.open (Accordion.el a))) with true
    by (rewrite Hr; symmetry; apply Bool.eqb_reflx).
  destruct force; simpl; [|repeat split].
  destruct (Accordion.fromLocalStorage getItem a) eqn:Er.
  - unfold Accordion.expand.
    destruct (animate_frame
                (Accordion.collapsedHeight (Accordion.setOpen true a))
                (Accordion.expandedHeight (Accordion.setOpen true a))
                true 0 (Accordion.setOpen true a))
      as (He & Hk & Hs & _).
    repeat split; try discriminate.
    + transitivity (Accordion.fromLocalStorage getItem a); [|exact Er].
      apply reading_ext; [exact Hs|exact Hk|]. rewrite He. simpl. exact Hr.
    + rewrite He. simpl. exact Hr.
    + rewrite Hs. reflexivity.
    + rewrite Hk. reflexivity.
  - unfold Accordion.collapse.
    destruct (animate_frame (Accordion.expandedHeight a)
                (Accordion.collapsedHeight a) false 0 a)
      as (He & Hk & Hs & _).
    repeat split; try discriminate.
    + transitivity (Accordion.fromLocalStorage getItem a); [|exact Er].
      apply reading_ext; [exact Hs|exact Hk|rewrite He; reflexivity].
    + rewrite He. reflexivity.
    + exact Hs.
    + exact Hk.
Qed.

Lemma write_spec value force (a : @Accordion.t Storage) :
  Accordion.faithfulOrSilent getItem setItem ->
  Accordion.fromLocalStorage getItem (Accordion.setLocalStorage getItem setItem value force a) = value
  /\ Accordion.key (Accordion.setLocalStorage getItem setItem value force a) = Accordion.key a
  /\ (force = false ->
      Accordion.setLocalStorage getItem setItem value force a = a
      \/ Accordion.setLocalStorage getItem setItem value force a
         = Accordion.setOpen value
             (Accordion.setStorage
                (setItem (Accordion.storage a) (Accordion.key a)
                   (Accordion.booleanToString value)) a)).
Proof.
  intros Hlaw. unfold Accordion.setLocalStorage.
  destruct (Bool.eqb (Accordion.fromLocalStorage getItem a) value && negb force) eqn:Ec.
  - apply andb_true_iff in Ec. destruct Ec as [Ee Ef].
    apply Bool.eqb_prop in Ee. repeat split; [exact Ee|]. intros _. left. reflexivity.
  - set (b := Accordion.setOpen value
                (Accordion.setStorage
                   (setItem (Accordion.storage a) (Accordion.key a)
                      (Accordion.booleanToString value)) a)).
    assert (Hb : Accordion.fromLocalStorage getItem b = value).
    { apply (reading_after_write a b value Hlaw); reflexivity. }
    assert (Hsettled : Accordion.fromLocalStorage getItem b = Accordion.open (Accordion.el b)) by exact Hb.
    destruct (handleValueChange_settled force b Hsettled)
      as (Hr & Ho & Hs & Hk & Hf).
    repeat split.
    + rewrite Hr. exact Hb.
    + rewrite Hk. reflexivity.
    + intros ->. right. exact (Hf eq_refl).
Qed.

(** X5.  What is read back from storage: [true] exactly when the stored
    item is the string [true], or when no item or the empty string is stored
    and the element is open.  Any other stored string reads as closed. *)
Theorem stored_state_reading (a : @Accordion.t Storage) :
  Accordion.fromLocalStorage getItem a = true
  <-> getItem (Accordion.storage a) (Accordion.key a) = Some "true"%string
      \/ ((getItem (Accordion.storage a) (Accordion.key a) = None
           \/ getItem (Accordion.storage a) (Accordion.key a) = Some ""%string)
          /\ Accordion.open (Accordion.el a) = true).
Proof.
  unfold Accordion.fromLocalStorage, Accordion.truthyString.
  destruct (getItem (Accordion.storage a) (Accordion.key a)) as [s|].
  - destruct (String.eqb s "") eqn:Ee; simpl.
    + apply String.eqb_eq in Ee. subst s. split.
      * intros Ho. right. split; [right; reflexivity|exact Ho].
      * intros [H|[_ Ho]]; [discriminate|exact Ho].
    + apply String.eqb_neq in Ee. split.
      * intros Ht. apply String.eqb_eq in Ht. subst s. left. reflexivity.
      * intros [H|[[H|H] _]]; try discriminate.
        -- inversion H; subst. reflexivity.
        -- inversion H; subst. exfalso. apply Ee. reflexivity.
  - split.
    + intros Ho. right. split; [left; reflexivity|exact Ho].
    + intros [H|[_ Ho]]; [discriminate|exact Ho].
Qed.

(** X6.  Writing and reading back: with a storage that keeps what it is
    given, or forgets it, [setLocalStorage(value, force)] always leaves a
    state from which [fromLocalStorage()] gives [value], forced or not. *)
Theorem stored_state_round_trip
  (Hlaw : Accordion.faithfulOrSilent getItem setItem)
  (value force : bool) (a : @Accordion.t Storage) :
  Accordion.fromLocalStorage getItem (Accordion.setLocalStorage getItem setItem value force a) = value.
Proof. exact (proj1 (write_spec value force a Hlaw)). Qed.

Lemma unforced_write_cases (value : bool) (a : @Accordion.t Storage) :
  Accordion.faithfulOrSilent getItem setItem ->
  (Accordion.fromLocalStorage getItem a = value
   /\ Accordion.setLocalStorage getItem setItem value false a = a)
  \/ (Accordion.fromLocalStorage getItem a <> value
      /\ Accordion.setLocalStorage getItem setItem value false a
         = Accordion.setOpen value
             (Accordion.setStorage
                (setItem (Accordion.storage a) (Accordion.key a)
                   (Accordion.booleanToString value)) a)).
Proof.
  intros Hlaw.
  destruct (Bool.bool_dec (Accordion.fromLocalStorage getItem a) value) as [E|E].
  - left. split; [exact E|]. unfold Accordion.setLocalStorage.
    rewrite E, Bool.eqb_reflx. reflexivity.
  - right. split; [exact E|].
    destruct (proj2 (proj2 (write_spec value false a Hlaw)) eq_refl) as [H|H].
    + exfalso. apply E. rewrite <- H at 1.
      exact (proj1 (write_spec value false a Hlaw)).
    + exact H.
Qed.


(** X8.  A click while an animation is in progress starts nothing: it hides
    the overflow and leaves the element open (opening it if it was closed);
    [this.animation], the running animations, the icon and the storage stay
    as they are. *)
Theorem click_during_animation (a : @Accordion.t Storage) (x : Accordion.Animation)
  (Hbusy : Accordion.animation a = Some x) :
  Accordion.toggleVisibility a
  = Accordion.setOpen true (Accordion.setOverflow "hidden" a).
Proof.
  unfold Accordion.toggleVisibility, Accordion.expand, Accordion.collapse,
    Accordion.animate.
  destruct a as [[o st] it k an ch eh s r]. simpl in *. subst an.
  destruct o; reflexivity.
Qed.

(** X9.  Right after any click the element is open and its overflow is
    hidden, whatever the state before: a collapsing accordion keeps its
    [open] attribute, which only the end of the animation takes away. *)
Theorem click_leaves_open (a : @Accordion.t Storage) :
  Accordion.open (Accordion.el (Accordion.toggleVisibility a)) = true
  /\ Accordion.overflow (Accordion.style (Accordion.el (Accordion.toggleVisibility a)))
     = "hidden"%string
  /\ Accordion.storage (Accordion.toggleVisibility a) = Accordion.storage a.
Proof.
  unfold Accordion.toggleVisibility, Accordion.expand, Accordion.collapse,
    Accordion.animate.
  destruct a as [[o st] it k an ch eh s r]. simpl.
  destruct o, an; repeat split.
Qed.

Lemma heightAnimations_app (r r' : list Accordion.Animation) :
  List.length (filter Accordion.isHeightAnimation (r ++ r'))
  = (List.length (filter Accordion.isHeightAnimation r)
     + List.length (filter Accordion.isHeightAnimation r'))%nat.
Proof. rewrite filter_app, length_app. reflexivity. Qed.

Lemma animate_oneAtATime s e o d (a : @Accordion.t Storage) :
  Accordion.oneAtATime a -> Accordion.oneAtATime (Accordion.animate s e o d a).
Proof.
  unfold Accordion.oneAtATime, Accordion.heightAnimations, Accordion.animate.
  destruct (Accordion.animation a) eqn:Ea; intros H.
  - rewrite Ea. exact H.
  - simpl. rewrite heightAnimations_app, H. reflexivity.
Qed.

Lemma oneAtATime_ext (a b : @Accordion.t Storage) :
  Accordion.running b = Accordion.running a ->
  Accordion.animation b = Accordion.animation a ->
  Accordion.oneAtATime a -> Accordion.oneAtATime b.
Proof.
  unfold Accordion.oneAtATime, Accordion.heightAnimations.
  intros -> ->. exact (fun H => H).
Qed.

Lemma handleValueChange_oneAtATime force (a : @Accordion.t Storage) :
  Accordion.oneAtATime a ->
  Accordion.oneAtATime (Accordion.handleValueChange getItem force a).
Proof.
  intros H. unfold Accordion.handleValueChange.
  destruct (_ && _); [exact H|].
  destruct (Accordion.fromLocalStorage getItem a).
  - unfold Accordion.expand. apply animate_oneAtATime.
    exact (oneAtATime_ext a _ eq_refl eq_refl H).
  - unfold Accordion.collapse. apply animate_oneAtATime. exact H.
Qed.

Lemma setLocalStorage_oneAtATime value force (a : @Accordion.t Storage) :
  Accordion.oneAtATime a ->
  Accordion.oneAtATime (Accordion.setLocalStorage getItem setItem value force a).
Proof.
  intros H. unfold Accordion.setLocalStorage.
  destruct (_ && _); [exact H|].
  apply handleValueChange_oneAtATime.
  exact (oneAtATime_ext a _ eq_refl eq_refl H).
Qed.

Lemma removeAt_count {A} (p : A -> bool) xs i x :
  nth_error xs i = Some x ->
  (List.length (filter p (Accordion.removeAt i xs)) + (if p x then 1 else 0)
   = List.length (filter p xs))%nat.
Proof.
  revert i. induction xs as [|y ys IH]; intros i E.
  - destruct i; discriminate.
  - destruct i as [|i]; simpl in *.
    + inversion E; subst. destruct (p x); simpl; lia.
    + specialize (IH i E). destruct (p y); simpl; lia.
Qed.

Lemma toggleVisibility_oneAtATime (a : @Accordion.t Storage) :
  Accordion.oneAtATime a -> Accordion.oneAtATime (Accordion.toggleVisibility a).
Proof.
  intros H. unfold Accordion.toggleVisibility.
  destruct (negb _).
  - unfold Accordion.expand. apply animate_oneAtATime.
    exact (oneAtATime_ext a _ eq_refl eq_refl H).
  - unfold Accordion.collapse. apply animate_oneAtATime.
    exact (oneAtATime_ext a _ eq_refl eq_refl H).
Qed.

Lemma finish_oneAtATime i (a : @Accordion.t Storage) :
  Accordion.oneAtATime a ->
  Accordion.oneAtATime (Accordion.finish getItem setItem i a).
Proof.
  intros H. unfold Accordion.finish.
  destruct (nth_error (Accordion.running a) i) as [x|] eqn:E; [|exact H].
  pose proof (removeAt_count Accordion.isHeightAnimation _ _ _ E) as Hc.
  unfold Accordion.oneAtATime, Accordion.heightAnimations in H.
  destruct x as [s e o op|s e o op]; simpl in *.
  - unfold Accordion.animationEnd. apply setLocalStorage_oneAtATime.
    unfold Accordion.oneAtATime, Accordion.heightAnimations; simpl.
    destruct (Accordion.animation a); lia.
  - unfold Accordion.oneAtATime, Accordion.heightAnimations; simpl.
    rewrite <- H. lia.
Qed.

Lemma constructor_oneAtATime offsetHeight slug element text transform store :
  Accordion.oneAtATime
    (Accordion.constructor getItem setItem offsetHeight slug element text
       transform store).
Proof.
  unfold Accordion.constructor. cbv zeta.
  match goal with
  | |- Accordion.oneAtATime (Accordion.setIconTransform _ ?x) =>
      apply (oneAtATime_ext x); [reflexivity|reflexivity|]
  end.
  apply setLocalStorage_oneAtATime. reflexivity.
Qed.

(** X10.  At most one height animation runs at a time, and [this.animation]
    is set exactly while one does: the constructor establishes this and a
    click and the end of any running animation keep it. *)
Theorem one_height_animation_at_a_time :
  (forall offsetHeight slug element text transform store,
      Accordion.oneAtATime
        (Accordion.constructor getItem setItem offsetHeight slug element text
           transform store))
  /\ (forall a : @Accordion.t Storage,
         Accordion.oneAtATime a ->
         Accordion.oneAtATime (Accordion.toggleVisibility a)
         /\ forall i, Accordion.oneAtATime (Accordion.finish getItem setItem i a)).
Proof.
  split.
  - apply constructor_oneAtATime.
  - intros a H. split; [exact (toggleVisibility_oneAtATime a H)|].
    intros i. exact (finish_oneAtATime i a H).
Qed.

Lemma faithful_weaken :
  Accordion.faithful getItem setItem ->
  Accordion.faithfulOrSilent getItem setItem.
Proof. intros H s k v. left. apply H. Qed.

(** The state an accordion settles in after a click, given the storage it
    ends with. *)
Lemma clickAndSettle_cases (a : @Accordion.t Storage) :
  Accordion.idle a ->
  Accordion.faithfulOrSilent getItem setItem ->
  let target := negb (Accordion.open (Accordion.el a)) in
  let settledWith store :=
    Accordion.mk
      (Accordion.mkElement target
         (Accordion.mkStyle
            (Accordion.position (Accordion.style (Accordion.el a)))
            (Accordion.left (Accordion.style (Accordion.el a)))
            "auto" "visible"))
      (Accordion.getIconRotation target) (Accordion.key a) None
      (Accordion.collapsedHeight a) (Accordion.expandedHeight a) store [] in
  ((Accordion.fromLocalStorage getItem
      (settledWith (Accordion.storage a)) = target
    /\ Accordion.clickAndSettle getItem setItem a
       = settledWith (Accordion.storage a))
   \/ (Accordion.fromLocalStorage getItem
         (settledWith (Accordion.storage a)) <> target
       /\ Accordion.clickAndSettle getItem setItem a
          = settledWith (setItem (Accordion.storage a) (Accordion.key a)
                           (Accordion.booleanToString target))))
  /\ Accordion.finish getItem setItem 0
       (Accordion.finish getItem setItem 1 (Accordion.toggleVisibility a))
     = Accordion.clickAndSettle getItem setItem a.
Proof.
  intros [Han Hrun] Hlaw target settledWith.
  destruct a as [[o [pos lft hgt ovf]] it k an ch eh st r].
  simpl in Han, Hrun. subst an r. subst target. simpl in settledWith.
  set (H := Accordion.HeightAnimation (if o then eh else ch)
              (if o then ch else eh) (Accordion.mkOptions 300 "ease") (negb o)).
  set (T := Accordion.TransformAnimation
              (if Accordion.truthyString it then it
               else Accordion.getIconRotation (negb (negb o)))
              (Accordion.getIconRotation (negb o))
              (Accordion.mkOptions 300 "ease") (negb o)).
  set (base := fun icon (rest : list Accordion.Animation) =>
         Accordion.mk
           (Accordion.mkElement (negb o)
              (Accordion.mkStyle pos lft "auto" "visible"))
           icon k None ch eh st rest).
  set (clicked := Accordion.mk
                    (Accordion.mkElement true
                       (Accordion.mkStyle pos lft hgt "hidden"))
                    it k (Some H) ch eh st [H; T]).
  assert (Hclick : Accordion.toggleVisibility
                     (Accordion.mk
                        (Accordion.mkElement o (Accordion.mkStyle pos lft hgt ovf))
                        it k None ch eh st []) = clicked).
  { destruct o; reflexivity. }
  assert (Hread : forall icon rest,
             Accordion.fromLocalStorage getItem (base icon rest)
             = Accordion.fromLocalStorage getItem (settledWith st)).
  { intros icon rest. apply reading_ext; reflexivity. }
  assert (Hfirst : Accordion.finish getItem setItem 0 clicked
                   = Accordion.setLocalStorage getItem setItem (negb o) false
                       (base it [T])) by reflexivity.
  assert (Hicon : Accordion.finish getItem setItem 1 clicked
                  = Accordion.mk
                      (Accordion.mkElement true
                         (Accordion.mkStyle pos lft hgt "hidden"))
                      (Accordion.getIconRotation (negb o)) k (Some H) ch eh st
                      [H]) by reflexivity.
  assert (Hthen : Accordion.finish getItem setItem 0
                    (Accordion.mk
                       (Accordion.mkElement true
                          (Accordion.mkStyle pos lft hgt "hidden"))
                       (Accordion.getIconRotation (negb o)) k (Some H) ch eh st
                       [H])
                  = Accordion.setLocalStorage getItem setItem (negb o) false
                      (base (Accordion.getIconRotation (negb o)) []))
    by reflexivity.
  unfold Accordion.clickAndSettle. rewrite Hclick, Hfirst, Hicon, Hthen.
  destruct (unforced_write_cases (negb o) (base it [T]) Hlaw) as [[E W]|[E W]];
    destruct (unforced_write_cases (negb o)
                (base (Accordion.getIconRotation (negb o)) []) Hlaw)
      as [[E' W']|[E' W']];
    rewrite Hread in E, E'; try contradiction;
    rewrite W, W'; (split; [|reflexivity]);
    [left|right]; (split; [exact E|reflexivity]).
Qed.


Lemma settle_persists (a : @Accordion.t Storage) v :
  Accordion.idle a ->
  Accordion.faithful getItem setItem ->
  getItem (Accordion.storage a) (Accordion.key a)
  = Some (Accordion.booleanToString v) ->
  let b := Accordion.clickAndSettle getItem setItem a in
  Accordion.idle b
  /\ Accordion.open (Accordion.el b) = negb (Accordion.open (Accordion.el a))
  /\ Accordion.key b = Accordion.key a
  /\ getItem (Accordion.storage b) (Accordion.key b)
     = Some (Accordion.booleanToString (negb (Accordion.open (Accordion.el a)))).
Proof.
  intros Hidle Hlaw Hitem b. subst b.
  destruct (clickAndSettle_cases a Hidle (faithful_weaken Hlaw))
    as [[[E W]|[E W]] _]; rewrite W; repeat split; simpl.
  - unfold Accordion.fromLocalStorage in E. simpl in E. rewrite Hitem in E.
    destruct (booleanToString_read v) as [Ht Hv]. rewrite Ht, Hv in E.
    rewrite Hitem, E. reflexivity.
  - apply Hlaw.
Qed.

(** X12.  With a storage that keeps what it is given and an item [true] or
    [false] already stored, a settled click stores the new state under the
    key, and two settled clicks bring back the [open] attribute the accordion
    started with, with that state stored again. *)
Theorem two_clicks_restore (a : @Accordion.t Storage) (v : bool)
  (Hidle : Accordion.idle a)
  (Hlaw : Accordion.faithful getItem setItem)
  (Hitem : getItem (Accordion.storage a) (Accordion.key a)
           = Some (Accordion.booleanToString v)) :
  let b := Accordion.clickAndSettle getItem setItem a in
  let c := Accordion.clickAndSettle getItem setItem b in
  getItem (Accordion.storage b) (Accordion.key a)
  = Some (Accordion.booleanToString (negb (Accordion.open (Accordion.el a))))
  /\ Accordion.idle c
  /\ Accordion.open (Accordion.el c) = Accordion.open (Accordion.el a)
  /\ getItem (Accordion.storage c) (Accordion.key a)
     = Some (Accordion.booleanToString (Accordion.open (Accordion.el a))).
Proof.
  intros b c.
  destruct (settle_persists a v Hidle Hlaw Hitem) as (Hi & Ho & Hk & Hs).
  fold b in Hi, Ho, Hk, Hs.
  destruct (settle_persists b _ Hi Hlaw Hs) as (Hi' & Ho' & Hk' & Hs').
  fold c in Hi', Ho', Hk', Hs'.
  rewrite Hk in Hs. rewrite Hk', Hk in Hs'. rewrite Ho, negb_involutive in Ho', Hs'.
  split; [exact Hs|split; [exact Hi'|split; [exact Ho'|exact Hs']]].
Qed.

(** X13.  While no item, or the empty string, is stored under the key, the
    end of an animation writes nothing: [animationEnd] sets the [open]
    attribute, clears [this.animation], resets height and overflow and leaves
    the storage alone, for every storage. *)
Theorem nothing_stored_nothing_written (a : @Accordion.t Storage) (isOpen : bool)
  (Hmissing : getItem (Accordion.storage a) (Accordion.key a) = None
              \/ getItem (Accordion.storage a) (Accordion.key a) = Some ""%string) :
  Accordion.animationEnd getItem setItem isOpen a
  = Accordion.setOverflow "visible"
      (Accordion.setHeight "auto"
         (Accordion.setAnimation None (Accordion.setOpen isOpen a))).
Proof.
  unfold Accordion.animationEnd, Accordion.setLocalStorage. cbv zeta.
  match goal with
  | |- (if Bool.eqb (Accordion.fromLocalStorage getItem ?x) _ && _ then _ else _) = _ =>
      assert (Hr : Accordion.fromLocalStorage getItem x = isOpen)
  end.
  { unfold Accordion.fromLocalStorage. simpl.
    destruct Hmissing as [E|E]; rewrite E; reflexivity. }
  rewrite Hr, Bool.eqb_reflx. reflexivity.
Qed.

(** X14.  What the constructor leaves behind, with a storage that keeps what
    it is given or forgets it: the state [v] read from storage under the key
    [tsd-accordion-] plus the slug of the summary (the element's own [open]
    attribute when nothing usable is stored) becomes the [open] attribute, is
    written back under the key and fixes the icon rotation; a height
    animation of duration 0 towards that state is running together with its
    icon animation; position and left of the element are as they were. *)
Theorem constructor_state (offsetHeight : Accordion.Element -> Z)
  (slug : string -> string) (element : Accordion.Element)
  (text transform : string) (store : Storage)
  (Hlaw : Accordion.faithfulOrSilent getItem setItem) :
  let key := ("tsd-accordion-" ++ slug text)%string in
  let v := match getItem store key with
           | Some s => if Accordion.truthyString s then String.eqb s "true"
                       else Accordion.open element
           | None => Accordion.open element
           end in
  let a := Accordion.constructor getItem setItem offsetHeight slug element
             text transform store in
  Accordion.key a = key
  /\ Accordion.open (Accordion.el a) = v
  /\ Accordion.storage a = setItem store key (Accordion.booleanToString v)
  /\ Accordion.fromLocalStorage getItem a = v
  /\ Accordion.iconTransform a = Accordion.getIconRotation v
  /\ Accordion.animation a
     = Some (Accordion.HeightAnimation
               (if v then Accordion.collapsedHeight a else Accordion.expandedHeight a)
               (if v then Accordion.expandedHeight a else Accordion.collapsedHeight a)
               (Accordion.mkOptions 0 "ease") v)
  /\ List.length (Accordion.running a) = 2%nat
  /\ Accordion.position (Accordion.style (Accordion.el a))
     = Accordion.position (Accordion.style element)
  /\ Accordion.left (Accordion.style (Accordion.el a))
     = Accordion.left (Accordion.style element).
Proof.
  intros key v a.
  set (a2 := Accordion.setKey key
               (Accordion.calculateHeights offsetHeight
                  (Accordion.mk element transform "" None "" "" store []))).
  assert (Hv : Accordion.fromLocalStorage getItem a2 = v) by reflexivity.
  set (a3 := Accordion.setOpen v
               (Accordion.setStorage
                  (setItem (Accordion.storage a2) (Accordion.key a2)
                     (Accordion.booleanToString v)) a2)).
  assert (Hr3 : Accordion.fromLocalStorage getItem a3 = v).
  { apply (reading_after_write a2 a3 v Hlaw); reflexivity. }
  assert (Ha : a = Accordion.setIconTransform
                     (Accordion.getIconRotation
                        (Accordion.open
                           (Accordion.el
                              (if v then Accordion.expand false a3
                               else Accordion.collapse false a3))))
                     (if v then Accordion.expand false a3
                      else Accordion.collapse false a3)).
  { subst a. unfold Accordion.constructor. cbv zeta. fold key. fold a2.
    unfold Accordion.setLocalStorage. rewrite andb_false_r. cbv zeta.
    rewrite Hv. fold a3. unfold Accordion.handleValueChange.
    rewrite andb_false_r, Hr3. reflexivity. }
  rewrite Ha. clear Ha. destruct element as [o [pos lft hgt ovf]].
  destruct v eqn:Ev.
  - repeat split; try reflexivity.
    transitivity (Accordion.fromLocalStorage getItem a3); [|exact Hr3].
    apply reading_ext; reflexivity.
  - repeat split; try reflexivity.
    transitivity (Accordion.fromLocalStorage getItem a3); [|exact Hr3].
    apply reading_ext; reflexivity.
Qed.

End AccordionProperties.

(* ================================================================== *)
(** ** The further properties on the samples *)

(** X1 on the sample: [T<T>] by resolved type keeps its one argument. *)
Lemma type_arguments_keep_their_number_sample :
  exists ts,
    typeArgumentsOf (ReferenceType (Pending (Some 0%nat))
                       (Some [IntrinsicType "any"])) = Some ts
    /\ List.length ts = 1%nat.
Proof.
  exact (proj1 (proj2 (type_arguments_keep_their_number Sample.program
                         idleWalker idleRegistry Sample.site Sample.genericType
                         emptyContext 0%nat eq_refl eq_refl))
           (ReferenceType (Pending (Some 0%nat)) (Some [IntrinsicType "any"]))
           emptyContext eq_refl).
Defined.

Lemma sample_stacks :
  sameDeclarations (Context.visitStack Sample.insideLiteral)
    (Context.visitStack (setVisitStack [11; 11]%nat Sample.insideLiteral)).
Proof. intros d. simpl. tauto. Defined.

(** X2 on the sample: literal 11 once or twice on the visit stack. *)
Lemma cycle_check_ignores_stack_order_sample :
  exists t,
    ReferenceConverter.convert Sample.program idleWalker 1%nat None
      Sample.insideLiteral = Ok (t, Sample.insideLiteral)
    /\ ReferenceConverter.convert Sample.program idleWalker 1%nat (Some 13%nat)
         (setVisitStack [11; 11]%nat Sample.insideLiteral)
       = Ok (t, setVisitStack [11; 11]%nat Sample.insideLiteral).
Proof.
  destruct (cycle_check_ignores_stack_order Sample.program Sample.insideLiteral
              (setVisitStack [11; 11]%nat Sample.insideLiteral) 1%nat 11%nat
              (or_introl eq_refl) (or_introl eq_refl) sample_stacks
              eq_refl idleWalker idleWalker None (Some 13%nat))
    as [[E _]|H].
  - discriminate E.
  - exact H.
Defined.


(** X4 on the sample, with the modelled engine as walker and registry. *)
Lemma conversion_keeps_the_model_sample :
  match Engine.convert Sample.program Sample.defaultType 4 1%nat (Some 11%nat)
          Sample.insideAlias with
  | Ok (_, c') => continues Sample.insideAlias c'
  | Err _ => False
  end.
Proof.
  destruct (Engine.convert Sample.program Sample.defaultType 4 1%nat
              (Some 11%nat) Sample.insideAlias) as [[t c']|e] eqn:E.
  - exact (proj1 (conversion_keeps_the_model Sample.program
                    (Engine.node_convertNode Sample.program Sample.defaultType 4)
                    (Engine.type_convertType Sample.program Sample.defaultType 4)
                    (proj2 (engine_continues Sample.program Sample.defaultType 4))
                    (proj1 (engine_continues Sample.program Sample.defaultType 4)))
             1%nat (Some 11%nat) Sample.insideAlias t c' E).
  - discriminate E.
Defined.

Lemma items_faithful : Accordion.faithful Accordion.getFrom Accordion.putInto.
Proof. intros s k v. simpl. rewrite String.eqb_refl. reflexivity. Defined.

Lemma items_faithfulOrSilent :
  Accordion.faithfulOrSilent Accordion.getFrom Accordion.putInto.
Proof. intros s k v. left. apply items_faithful. Defined.

(** X6 on the sample: writing [true] into the settled sample. *)
Lemma stored_state_round_trip_sample :
  Accordion.fromLocalStorage Accordion.getFrom
    (Accordion.setLocalStorage Accordion.getFrom Accordion.putInto true false
       Accordion.settled) = true.
Proof.
  exact (stored_state_round_trip Accordion.getFrom Accordion.putInto
           items_faithfulOrSilent true false Accordion.settled).
Defined.


(** X8 on the sample: a click right after construction, while the animation
    the constructor started is still running. *)
Lemma click_during_animation_sample :
  Accordion.toggleVisibility Accordion.sample
  = Accordion.setOpen true (Accordion.setOverflow "hidden" Accordion.sample).
Proof.
  exact (click_during_animation Accordion.sample _ eq_refl).
Defined.


(** X12 on the sample. *)
Lemma two_clicks_restore_sample :
  Accordion.open
    (Accordion.el
       (Accordion.clickAndSettle Accordion.getFrom Accordion.putInto
          (Accordion.clickAndSettle Accordion.getFrom Accordion.putInto
             Accordion.settled))) = false.
Proof.
  exact (proj1 (proj2 (proj2
           (two_clicks_restore Accordion.getFrom Accordion.putInto
              Accordion.settled false (conj eq_refl eq_refl)
              items_faithful eq_refl)))).
Defined.

(** X13 on the sample with its storage emptied. *)
Lemma nothing_stored_nothing_written_sample :
  Accordion.storage
    (Accordion.animationEnd Accordion.getFrom Accordion.putInto true
       (Accordion.setStorage [] Accordion.settled)) = [].
Proof.
  exact (f_equal Accordion.storage
           (nothing_stored_nothing_written Accordion.getFrom Accordion.putInto
              (Accordion.setStorage [] Accordion.settled) true
              (or_introl eq_refl))).
Defined.

(** X14 on the sample. *)
Lemma constructor_state_sample :
  Accordion.key Accordion.sample = "tsd-accordion-settings"%string
  /\ Accordion.open (Accordion.el Accordion.sample) = false.
Proof.
  pose (W := constructor_state Accordion.getFrom Accordion.putInto
               Accordion.sampleHeights (fun s => s) Accordion.sampleElement
               "settings" "" [] items_faithfulOrSilent).
  exact (conj (proj1 W) (proj1 (proj2 W))).
Defined.
